(** * iMicroSeq data portal: the build-time aggregation scripts

    A shallow embedding of [scripts/build_dashboard_data.py] (the Dashboard
    Aggregator) and [scripts/build_quant_tsv.py] (the Quantitative Nester),
    with the properties the specification states about them.

    Conventions of the embedding.
    - A Python [str] is a [string]; a character is a code point below 256
      (Latin-1), which is where the character classes used by the scripts
      ([str.strip], [\s], [\d], [str.lower], [re.I]) are written out.
    - A csv row ([csv.DictReader]) is a [gmap string (option string)]: a
      column of the header holds a string, or [None] in a row that is too
      short; a column that is not in the header is an absent key.
    - A Python [dict] whose iteration order is observed is an association
      list in insertion order ([pydict]).
    - A [float] is an IEEE binary64 value ([pyfloat]): a sign with an exact
      magnitude, an infinity, or NaN; [float(text)] rounds the decimal it
      reads to the nearest value, ties to even. *)

From Stdlib Require Import ZArith QArith Ascii String DecimalString.
From Stdlib Require Import List Sorted Permutation Lia.
From stdpp Require Import base option list sorting strings gmap.

Close Scope Q_scope.

(** ** Python strings *)

Module PyStr.

(** [str.isspace] on Latin-1: TAB..CR, FS..US and space, NEL, NBSP. *)
Definition is_space (c : ascii) : bool :=
  let n := N_of_ascii c in
  ((9 <=? n) && (n <=? 13) || (28 <=? n) && (n <=? 32)
   || (n =? 133) || (n =? 160))%N.

(** [\d]: the decimal digits (below 256 these are 0..9). *)
Definition is_digit (c : ascii) : bool :=
  let n := N_of_ascii c in ((48 <=? n) && (n <=? 57))%N.

Definition lower_char (c : ascii) : ascii :=
  let n := N_of_ascii c in
  if ((65 <=? n) && (n <=? 90)
      || (192 <=? n) && (n <=? 222) && negb (n =? 215))%N
  then ascii_of_N (n + 32) else c.

Definition upper_char (c : ascii) : ascii :=
  let n := N_of_ascii c in
  if ((97 <=? n) && (n <=? 122)
      || (224 <=? n) && (n <=? 254) && negb (n =? 247))%N
  then ascii_of_N (n - 32) else c.

Fixpoint map_chars (f : ascii -> ascii) (s : string) : string :=
  match s with
  | "" => ""
  | String c r => String (f c) (map_chars f r)
  end.

Definition lower : string -> string := map_chars lower_char.

Fixpoint lstrip (s : string) : string :=
  match s with
  | "" => ""
  | String c r => if is_space c then lstrip r else s
  end.

Fixpoint rstrip (s : string) : string :=
  match s with
  | "" => ""
  | String c r =>
      match rstrip r with
      | "" => if is_space c then "" else String c ""
      | r' => String c r'
      end
  end.

(** [s.strip()] *)
Definition strip (s : string) : string := rstrip (lstrip s).

(** [needle in hay] *)
Fixpoint str_in (needle hay : string) : bool :=
  String.prefix needle hay
  || match hay with
     | "" => false
     | String _ r => str_in needle r
     end.

(** Truthiness of a string, as in [x or default]. *)
Definition nonempty (s : string) : bool :=
  match s with "" => false | _ => true end.

Definition or_else (s default : string) : string :=
  if nonempty s then s else default.

End PyStr.

Import PyStr.

(** ** Removing bracketed spans

    [re.sub(r"\[[^\]]*\]", "", s)]: scanning from the left, a '[' that has a
    ']' somewhere after it opens a match that runs to the first such ']'
    (the class [[^\]]] also consumes '[' characters); the match is dropped
    and scanning resumes after it. A '[' with no later ']' cannot match and
    is copied. [inside] is the scanner being within a match. *)

Definition is_open (c : ascii) : bool := Ascii.eqb c "[".
Definition is_close (c : ascii) : bool := Ascii.eqb c "]".

Fixpoint has_close (s : string) : bool :=
  match s with
  | "" => false
  | String c r => is_close c || has_close r
  end.

Fixpoint sub_scan (inside : bool) (s : string) : string :=
  match s with
  | "" => ""
  | String c r =>
      if inside then
        if is_close c then sub_scan false r else sub_scan true r
      else if is_open c && has_close r then sub_scan true r
      else String c (sub_scan false r)
  end.

Definition re_sub_brackets (s : string) : string := sub_scan false s.

(** [strip_brackets] of build_quant_tsv.py: one pass, then strip. *)
Definition strip_brackets (s : string) : string := strip (re_sub_brackets s).

(** The [while "[" in out] loop of [trim_brackets]; [fuel] bounds the
    number of iterations, [None] is the bound being exhausted. *)
Fixpoint trim_loop (fuel : nat) (out : string) : option string :=
  if str_in "[" out then
    match fuel with
    | O => None
    | S n => trim_loop n (re_sub_brackets out)
    end
  else Some out.

(** [trim_brackets] of build_dashboard_data.py. The argument is what
    [row.get] returns: [None] for an absent column. *)
Definition trim_brackets (fuel : nat) (s : option string) : option string :=
  match s with
  | None => Some ""
  | Some v =>
      match trim_loop fuel (strip v) with
      | Some out => Some (strip out)
      | None => None
      end
  end.

(** Every '[' of [s] has a ']' somewhere after it: no [unclosed] bracket. *)
Fixpoint unclosed (s : string) : bool :=
  match s with
  | "" => false
  | String c r => is_open c && negb (has_close r) || unclosed r
  end.

(** The bracket characters of [s], in order. *)
Fixpoint skel (s : string) : string :=
  match s with
  | "" => ""
  | String c r => if is_open c || is_close c then String c (skel r) else skel r
  end.

(** The groups of [s] are [flat]: its brackets read "[" "]" "[" "]" ..., none
    inside another and none left open. [opened] is being inside a group. *)
Fixpoint flat_from (opened : bool) (s : string) : bool :=
  match s with
  | "" => negb opened
  | String c r =>
      if is_open c then negb opened && flat_from true r
      else if is_close c then opened && flat_from false r
      else flat_from opened r
  end.

Definition flat_groups (s : string) : bool := flat_from false s.

Definition has_bracket (s : string) : bool := str_in "[" s || str_in "]" s.

(** ** Python containers and [sorted] *)

Module PyDict.
Section Dict.
Context {K V : Type} `{EqDecision K}.

(** [d.get(k)] *)
Fixpoint get (k : K) (d : list (K * V)) : option V :=
  match d with
  | [] => None
  | (k', v) :: d' => if decide (k = k') then Some v else get k d'
  end.

(** [d[k] = v]: an existing key keeps its position, a new one goes last. *)
Fixpoint set (k : K) (v : V) (d : list (K * V)) : list (K * V) :=
  match d with
  | [] => [(k, v)]
  | (k', v') :: d' =>
      if decide (k = k') then (k', v) :: d' else (k', v') :: set k v d'
  end.

Definition keys (d : list (K * V)) : list K := d.*1.
Definition values (d : list (K * V)) : list V := d.*2.
End Dict.

(** [d[k] = d.get(k, 0) + 1] *)
Definition incr {K} `{EqDecision K} (k : K) (d : list (K * nat))
  : list (K * nat) :=
  set k (default 0 (get k d) + 1) d.
End PyDict.

Abbreviation pydict K V := (list (K * V)) (only parsing).

(** [sorted(l, key=key)] and [l.sort(key=key)]: a stable sort. Insertion
    from the right puts an element before the first one whose key is not
    smaller, so equal keys keep their order. *)
Section Sorted.
Context {A K : Type} (key : A -> K) (leb : K -> K -> bool).

Fixpoint insert_by (x : A) (l : list A) : list A :=
  match l with
  | [] => [x]
  | y :: l' => if leb (key x) (key y) then x :: l else y :: insert_by x l'
  end.

Definition sorted_by (l : list A) : list A := foldr insert_by [] l.

(** The order [sorted] leaves the elements in. *)
Definition key_leb (x y : A) : Prop := leb (key x) (key y) = true.
End Sorted.

(** Order of Python tuples [(bool, k)]: [False < True], then the second
    component. *)
Definition pair_leb {K} (leb : K -> K -> bool) (a b : bool * K) : bool :=
  if Bool.eqb a.1 b.1 then leb a.2 b.2 else negb a.1.

(** A csv row: a present column holds a string or [None] (a short row). *)
Abbreviation csv_row := (gmap string (option string)) (only parsing).

(** [row.get(c)] *)
Definition row_get (row : csv_row) (c : string) : option string :=
  mjoin (row !! c).

(** [(row.get(c) or "").strip()] *)
Definition row_text (row : csv_row) (c : string) : string :=
  strip (default "" (row_get row c)).

(** ** build_dashboard_data.py: the coordinate parser *)

#[global] Instance Q_eq_dec : EqDecision Q.
Proof. solve_decision. Defined.

(** A Python float. The magnitude of a finite value is a reduced fraction,
    so two values are equal exactly when [repr] prints them alike: [-0.0]
    and [0.0] differ, and there is one NaN. *)
Inductive pyfloat : Type :=
| Finite (negative : bool) (magnitude : Q)
| Infinite (negative : bool)
| NaN.

#[global] Instance pyfloat_eq_dec : EqDecision pyfloat.
Proof. solve_decision. Defined.

(** [a / b] rounded to the nearest integer, ties to even ([0 <= a], [0 < b]). *)
Definition div_nearest_even (a b : Z) : Z :=
  let q := (a / b)%Z in
  match (2 * (a mod b) ?= b)%Z with
  | Lt => q
  | Gt => (q + 1)%Z
  | Eq => if Z.even q then q else (q + 1)%Z
  end.

(** The binary64 value nearest to [n / d] ([0 <= n]): 53 significant bits,
    the unit never below [2^-1074]; [None] is overflow. *)
Definition round_binary64 (n : Z) (d : positive) : option Q :=
  if (n =? 0)%Z then Some 0%Q
  else
    let e0 := (Z.log2 n - Z.log2 (Zpos d))%Z in
    let e :=
      if (n * 2 ^ Z.max 0 (- e0) <? Zpos d * 2 ^ Z.max 0 e0)%Z
      then (e0 - 1)%Z else e0 in
    let u := Z.max (e - 52) (-1074) in
    let m :=
      div_nearest_even (n * 2 ^ Z.max 0 (- u)) (Zpos d * 2 ^ Z.max 0 u) in
    if (1024 <=? u + Z.log2 m)%Z then None
    else Some (Qred (if (0 <=? u)%Z then (m * 2 ^ u # 1)%Q
                     else (m # Z.to_pos (2 ^ (- u)))%Q)).

Definition float_of_fraction (negative : bool) (n : Z) (d : positive)
  : pyfloat :=
  match round_binary64 n d with
  | Some m => Finite negative m
  | None => Infinite negative
  end.

(** The float a decimal literal of Rocq denotes, to write values down. *)
Definition float_of_Q (q : Q) : pyfloat :=
  float_of_fraction (Qnum q <? 0)%Z (Z.abs (Qnum q)) (Qden q).

(** [abs(x)] and [-x] *)
Definition float_abs (x : pyfloat) : pyfloat :=
  match x with
  | Finite _ m => Finite false m
  | Infinite _ => Infinite false
  | NaN => NaN
  end.

Definition float_neg (x : pyfloat) : pyfloat :=
  match x with
  | Finite s m => Finite (negb s) m
  | Infinite s => Infinite (negb s)
  | NaN => NaN
  end.

(** [x < z] and [x > z] for an integer [z]; both are false on NaN. *)
Definition float_lt_int (x : pyfloat) (z : Z) : bool :=
  match x with
  | Finite s m => negb (Qle_bool (z # 1) (if s then Qopp m else m))
  | Infinite s => s
  | NaN => false
  end.

Definition float_gt_int (x : pyfloat) (z : Z) : bool :=
  match x with
  | Finite s m => negb (Qle_bool (if s then Qopp m else m) (z # 1))
  | Infinite s => negb s
  | NaN => false
  end.

(** The longest prefix of characters satisfying [p], and the rest. *)
Fixpoint span (p : ascii -> bool) (s : string) : string * string :=
  match s with
  | "" => ("", "")
  | String c r =>
      if p c then let '(a, b) := span p r in (String c a, b) else ("", s)
  end.

(** [[NSEW]] under [re.I] *)
Definition is_hemi (c : ascii) : bool :=
  let u := upper_char c in
  Ascii.eqb u "N" || Ascii.eqb u "S" || Ascii.eqb u "E" || Ascii.eqb u "W".

(** Groups 1 and 2 of
    [re.match(r"(-?\d+(?:\.\d+)?)\s*([NSEW])?", s, re.I)]: every part after
    the digits is optional, so the greedy choice never has to be undone. *)
Definition match_lat_lon (s : string) : option (string * option string) :=
  let '(sign, s1) :=
    match s with
    | String "-" r => ("-", r)
    | _ => ("", s)
    end in
  let '(ds, s2) := span is_digit s1 in
  if nonempty ds then
    let '(num, s3) :=
      match s2 with
      | String "." r =>
          let '(fs, r') := span is_digit r in
          if nonempty fs then (sign +:+ ds +:+ "." +:+ fs, r')
          else (sign +:+ ds, s2)
      | _ => (sign +:+ ds, s2)
      end in
    let '(_, s4) := span is_space s3 in
    match s4 with
    | String c _ =>
        if is_hemi c then Some (num, Some (String c "")) else Some (num, None)
    | "" => Some (num, None)
    end
  else None.

(** [float(text)] for a text of the shape [-?\d+(\.\d+)?] (any other text
    is a [ValueError]): [mantissa / 10^scale], rounded. *)
Definition digit_val (c : ascii) : Z := (Z.of_N (N_of_ascii c) - 48)%Z.

Fixpoint digits_val (acc : Z) (s : string) : option Z :=
  match s with
  | "" => Some acc
  | String c r =>
      if is_digit c then digits_val (10 * acc + digit_val c)%Z r else None
  end.

Definition unsigned_decimal (negative : bool) (s : string) : option pyfloat :=
  let '(ds, rest) := span is_digit s in
  if nonempty ds then
    match rest with
    | "" => (fun m => float_of_fraction negative m 1) <$> digits_val 0 ds
    | String "." fs =>
        if nonempty fs then
          (fun m => float_of_fraction negative m
                      (Pos.pow 10 (Pos.of_nat (String.length fs))))
            <$> digits_val 0 (ds +:+ fs)
        else None
    | _ => None
    end
  else None.

Definition float_of_decimal (s : string) : option pyfloat :=
  match s with
  | String "-" r => unsigned_decimal true r
  | _ => unsigned_decimal false s
  end.

Definition parse_lat_lon (raw : option string) (kind : string)
  : option pyfloat :=
  match raw with
  | None => None
  | Some raw =>
      let s := strip raw in
      if negb (nonempty s) || String.eqb s "--"
         || str_in "not provided" (lower s)
      then None
      else
        match match_lat_lon s with
        | None => None
        | Some (g1, g2) =>
            match float_of_decimal g1 with
            | None => None
            | Some value =>
                let hemi := map_chars upper_char (default "" g2) in
                let value :=
                  if String.eqb hemi "S" || String.eqb hemi "W"
                  then float_neg (float_abs value)
                  else if String.eqb hemi "N" || String.eqb hemi "E"
                  then float_abs value
                  else value in
                if String.eqb kind "lat"
                   && (float_lt_int value (-90) || float_gt_int value 90)
                then None
                else if String.eqb kind "lon"
                        && (float_lt_int value (-180) || float_gt_int value 180)
                then None
                else Some value
            end
        end
  end.

(** ** build_dashboard_data.py: the province table *)

(** [s.split(sep)[0]] *)
Fixpoint before_first (sep s : string) : string :=
  if String.prefix sep s then ""
  else match s with
       | "" => ""
       | String c r => String c (before_first sep r)
       end.

Section ProvinceTable.
(** Python's [float] on the text of a cell; [None] is [ValueError]. *)
Variable py_float : string -> option pyfloat.

(** [float(row.get(col, 0))]: an absent column reads the default [0], a
    [None] cell is a [TypeError]. *)
Definition float_cell (row : csv_row) (col : string) : option pyfloat :=
  match row !! col with
  | None => Some (Finite false 0)
  | Some None => None
  | Some (Some s) => py_float s
  end.

Definition short_name (name : string) : string :=
  strip (before_first " [" name).

(** One iteration of the loop over the table. *)
Definition province_step (coords : gmap string (pyfloat * pyfloat))
    (row : csv_row) : gmap string (pyfloat * pyfloat) :=
  let name := row_text row "Province" in
  if negb (nonempty name) then coords
  else
    match float_cell row "Latitude" with
    | None => coords
    | Some lat =>
        match float_cell row "Longitude" with
        | None => coords
        | Some lon =>
            let coords := <[name := (lat, lon)]> coords in
            let short := short_name name in
            if nonempty short && negb (String.eqb short name)
            then <[short := (lat, lon)]> coords
            else coords
        end
    end.

(** [table] is the content of the reference file, [None] when the file
    does not exist. *)
Definition load_province_coords (table : option (list csv_row))
  : gmap string (pyfloat * pyfloat) :=
  match table with
  | None => ∅
  | Some rows => foldl province_step ∅ rows
  end.
(** The keys a row of the table writes: none when the row is skipped. *)
Definition province_keys (row : csv_row) : list string :=
  let name := row_text row "Province" in
  if nonempty name then
    match float_cell row "Latitude", float_cell row "Longitude" with
    | Some _, Some _ => [name; short_name name]
    | _, _ => []
    end
  else [].

End ProvinceTable.

(** ** build_dashboard_data.py: [main] *)

Module Dashboard.

(** [re.match(r"^(\d{4})", s)] followed by [int(ym.group(1))]. *)
Definition match_year (s : string) : option nat :=
  match s with
  | String a (String b (String c (String d _))) =>
      if is_digit a && is_digit b && is_digit c && is_digit d
      then Z.to_nat <$> digits_val 0 (String a (String b (String c (String d ""))))
      else None
  | _ => None
  end.

(** The year a row contributes to the growth series, if any. *)
Definition row_year (row : csv_row) : option nat :=
  let date_str := row_text row "sample collection start date" in
  if nonempty date_str then match_year date_str else None.

(** The coordinate a row is counted under: the parsed pair, else the
    province fallback. [coord_counts] is keyed in the source by the text
    [f"{lat},{lon}"], and the emitted point reads the two floats back from
    it with [key.split(",", 1)] and [float]; [repr] of a float has no comma
    and [float] reads it back to the same value, so the key is modelled by
    the pair itself. The [print] on a positive longitude only writes to the
    standard output and is left out. *)
Definition resolve_coord (province_coords : gmap string (pyfloat * pyfloat))
    (row : csv_row) : option (pyfloat * pyfloat) :=
  let lat := parse_lat_lon (row_get row "geo loc latitude") "lat" in
  let lon := parse_lat_lon (row_get row "geo loc longitude") "lon" in
  let '(lat, lon) :=
    match lat, lon with
    | Some _, Some _ => (lat, lon)
    | _, _ =>
        let state_province :=
          row_text row "geo loc name (state/province/territory)" in
        let fallback :=
          if nonempty state_province
          then province_coords !! state_province else None in
        match fallback with
        | Some (la, lo) => (Some la, Some lo)
        | None => (lat, lon)
        end
    end in
  match lat, lon with
  | Some la, Some lo => Some (la, lo)
  | _, _ => None
  end.

(** The variables the first loop over the rows updates. [min_year] and
    [max_year] start at [float("inf")] and [float("-inf")]: [None]. *)
Record scan := {
  site_set : gset string;
  org_set : gset string;
  organisms_set : gset string;
  coord_counts : pydict (pyfloat * pyfloat) nat;
  growth_by_year : gmap nat nat;
  min_year : option nat;
  max_year : option nat
}.

Definition scan_init : scan :=
  {| site_set := ∅; org_set := ∅; organisms_set := ∅; coord_counts := [];
     growth_by_year := ∅; min_year := None; max_year := None |}.

Definition add_nonempty (s : string) (X : gset string) : gset string :=
  if nonempty s then {[ s ]} ∪ X else X.

Definition scan_step (province_coords : gmap string (pyfloat * pyfloat)) (st : scan)
    (row : csv_row) : scan :=
  let coords :=
    match resolve_coord province_coords row with
    | Some key => PyDict.incr key (coord_counts st)
    | None => coord_counts st
    end in
  let '(lo, hi, by_year) :=
    match row_year row with
    | Some year =>
        (Some (from_option (Nat.min year) year (min_year st)),
         Some (from_option (Nat.max year) year (max_year st)),
         <[year := default 0 (growth_by_year st !! year) + 1]>
           (growth_by_year st))
    | None => (min_year st, max_year st, growth_by_year st)
    end in
  {| site_set := add_nonempty (row_text row "geo loc name (site)") (site_set st);
     org_set :=
       add_nonempty (row_text row "sample collected by organisation name")
         (org_set st);
     organisms_set := add_nonempty (row_text row "organism") (organisms_set st);
     coord_counts := coords;
     growth_by_year := by_year;
     min_year := lo;
     max_year := hi |}.

Definition scan_rows (province_coords : gmap string (pyfloat * pyfloat))
    (rows : list csv_row) : scan :=
  foldl (scan_step province_coords) scan_init rows.

(** *** Growth *)

Record growth_point := { year : nat; records : nat }.

(** The body of [for y in range(y_min, y_max + 1)], over the years left. *)
Fixpoint growth_loop (by_year : gmap nat nat) (cumulative : nat)
    (ys : list nat) : list growth_point :=
  match ys with
  | [] => []
  | y :: ys' =>
      let cumulative := cumulative + default 0 (by_year !! y) in
      {| year := y; records := cumulative |} :: growth_loop by_year cumulative ys'
  end.

Definition growth_of (st : scan) : list growth_point :=
  let y_min := default 0 (min_year st) in
  let y_max := default 0 (max_year st) in
  growth_loop (growth_by_year st) 0 (seq y_min (y_max + 1 - y_min)).

(** *** Breakdown *)

(** [trim_brackets(row.get("environmental site")) or "Unknown"] *)
Definition site_label (fuel : nat) (row : csv_row) : option string :=
  (fun s => or_else s "Unknown")
    <$> trim_brackets fuel (row_get row "environmental site").

(** A loop [for row in rows: l = label(row); d[l] = d.get(l, 0) + 1]. *)
Definition count_by (label : csv_row -> option string) (rows : list csv_row)
  : option (pydict string nat) :=
  foldl (fun acc row => d ← acc; l ← label row; Some (PyDict.incr l d))
    (Some []) rows.

Definition by_count_desc (x : string * nat) : Z := (- Z.of_nat x.2)%Z.

Definition top_sites_of (site_counts : pydict string nat) : list string :=
  (take 8 (sorted_by by_count_desc Z.leb site_counts)).*1.

Definition category (fuel : nat) (top_sites : list string) (row : csv_row)
  : option string :=
  (fun site => if bool_decide (site ∈ top_sites) then site else "Other")
    <$> site_label fuel row.

Definition is_other (label : string) : bool := String.eqb (lower label) "other".

Definition breakdown_key (x : string * nat) : bool * Z :=
  (is_other x.1, (- Z.of_nat x.2)%Z).

Definition breakdown_of (fuel : nat) (rows : list csv_row)
  : option (pydict string nat) :=
  site_counts ← count_by (site_label fuel) rows;
  category_counts ← count_by (category fuel (top_sites_of site_counts)) rows;
  Some (sorted_by breakdown_key (pair_leb Z.leb) category_counts).

(** *** Coverage points *)

Record coverage_point := {
  latitude : pyfloat;
  longitude : pyfloat;
  count : nat
}.

Definition coverage_of (st : scan) : list coverage_point :=
  sorted_by (fun p => (- Z.of_nat (count p))%Z) Z.leb
    ((fun '((lat, lon), n) => {| latitude := lat; longitude := lon; count := n |})
       <$> coord_counts st).

(** *** The payload *)

Record summary := {
  s_records : nat;
  s_sites : nat;
  s_start : option nat;
  s_end : option nat;
  s_organisms : nat;
  s_dataSources : nat
}.

Record payload := {
  p_summary : summary;
  p_growth : list growth_point;
  p_breakdown : pydict string nat;
  p_coveragePoints : list coverage_point
}.

Definition summary_of (rows : list csv_row) (st : scan) : summary :=
  {| s_records := length rows;
     s_sites := size (site_set st);
     s_start := min_year st;
     s_end := max_year st;
     s_organisms := size (organisms_set st);
     s_dataSources := size (org_set st) |}.

(** [main] up to the payload; [None] is [trim_brackets] not returning
    within [fuel] iterations on some row. *)
Definition main (fuel : nat) (province_coords : gmap string (pyfloat * pyfloat))
    (rows : list csv_row) : option payload :=
  let st := scan_rows province_coords rows in
  breakdown ← breakdown_of fuel rows;
  Some {| p_summary := summary_of rows st;
          p_growth := growth_of st;
          p_breakdown := breakdown;
          p_coveragePoints := coverage_of st |}.

(** The rows whose collection date yields a year. *)
Definition dated (rows : list csv_row) : list nat := omap row_year rows.

(** The rows a coordinate was resolved for. *)
Definition located (province_coords : gmap string (pyfloat * pyfloat))
    (rows : list csv_row) : list (pyfloat * pyfloat) :=
  omap (resolve_coord province_coords) rows.

(** What the first loop knows about the years [ys] seen so far. *)
Definition year_inv (st : scan) (ys : list nat) : Prop :=
  (∀ y, default 0 (growth_by_year st !! y) = length (filter (eq y) ys))
  ∧ match min_year st, max_year st with
    | None, None => ys = []
    | Some lo, Some hi => lo ∈ ys ∧ hi ∈ ys ∧ Forall (fun y => lo <= y <= hi) ys
    | _, _ => False
    end.

(** The text of the site column of every row has no unclosed '['. *)
Definition sites_closed (rows : list csv_row) : Prop :=
  Forall (fun row => ∀ v, row_get row "environmental site" = Some v ->
                          unclosed v = false) rows.

End Dashboard.

(** ** build_quant_tsv.py *)

Module Quant.

Definition DATE_COL : string := "sample collection start date".

Definition NEST_ORDER : list string :=
  [ "geo loc name (state/province/territory)";
    "geo loc name (city)";
    "geo loc name (site)";
    "assay type";
    "target taxonomic name";
    "gene symbol";
    "diagnostic measurement unit";
    "sample collection start date" ].

Definition VALUE_COL : string := "diagnostic measurement value".

Definition METADATA_COLUMNS : list string :=
  [ "sample collection start date";
    "geo loc name (site)";
    "geo loc name (state/province/territory)";
    "geo loc name (city)";
    "organism";
    "assay type" ].

Definition TARGET_BASE_NAMES : list string :=
  [ "target taxonomic name";
    "assay target name";
    "gene symbol";
    "diagnostic target presence";
    "diagnostic measurement value";
    "diagnostic measurement unit";
    "diagnostic measurement method" ].

(** [str(n)] *)
Definition str_of_nat (n : nat) : string :=
  NilEmpty.string_of_uint (Nat.to_uint n).

(** An output row: [dict[str, str]]. [(r.get(c) or "").strip()]: *)
Definition out_text (r : gmap string string) (c : string) : string :=
  strip (default "" (r !! c)).

(** [meta_ok]: the metadata columns the header has. *)
Definition meta_ok_of (fieldnames : list string) : list string :=
  filter (fun c => c ∈ fieldnames) METADATA_COLUMNS.

(** The sub-record of [row] for one target slot. *)
Definition expand_target (meta_ok : list string) (row : csv_row)
    (target_num : nat) : gmap string string :=
  let out_row :=
    foldl (fun o col => <[col := row_text row col]> o) ∅ meta_ok in
  let out_row := <["target" := str_of_nat target_num]> out_row in
  foldl
    (fun o base =>
       <[base := row_text row (base +:+ " " +:+ str_of_nat target_num)]> o)
    out_row TARGET_BASE_NAMES.

Definition expand_row (meta_ok : list string) (row : csv_row)
  : list (gmap string string) :=
  expand_target meta_ok row <$> [1; 2; 3].

Definition expand (meta_ok : list string) (rows : list csv_row)
  : list (gmap string string) :=
  rows ≫= expand_row meta_ok.

Definition has_target_info (r : gmap string string) : bool :=
  existsb (fun base => nonempty (out_text r base)) TARGET_BASE_NAMES.

Definition sort_key (r : gmap string string) : bool * string :=
  let d := out_text r DATE_COL in (negb (nonempty d), d).

(** [out_rows] after the filter and the sort. *)
Definition out_rows (fieldnames : list string) (rows : list csv_row)
  : list (gmap string string) :=
  sorted_by sort_key (pair_leb String.leb)
    (List.filter has_target_info (expand (meta_ok_of fieldnames) rows)).

Definition path_vals (r : gmap string string) : list string :=
  (fun f =>
     let raw := out_text r f in
     if String.eqb f DATE_COL then or_else (strip_brackets raw) "(no date)"
     else or_else (strip_brackets raw) "(blank)")
    <$> NEST_ORDER.

Definition value_val (r : gmap string string) : string :=
  or_else (strip_brackets (out_text r VALUE_COL)) "(blank)".

(** [n] levels of [defaultdict] over a [list] of values. *)
Fixpoint nest (n : nat) : Type :=
  match n with
  | O => list string
  | S m => pydict string (nest m)
  end.

Definition nest_empty (n : nat) : nest n :=
  match n with
  | O => []
  | S _ => []
  end.

(** Walk down the keys, creating missing levels, and append the value. *)
Fixpoint nest_add (n : nat) (keys : list string) (v : string)
  : nest n -> nest n :=
  match n with
  | O => fun leaf => leaf ++ [v]
  | S m => fun d =>
      match keys with
      | [] => d
      | k :: keys' =>
          let child := default (nest_empty m) (PyDict.get k d) in
          PyDict.set k (nest_add m keys' v child) d
      end
  end.

Definition nested_of (rs : list (gmap string string)) : nest 8 :=
  foldl (fun d r => nest_add 8 (path_vals r) (value_val r) d) (nest_empty 8) rs.

Definition is_sentinel (k : string) : bool :=
  String.eqb k "(no date)" || String.eqb k "(blank)".

Definition _sort_key {V} (item : string * V) : bool * string :=
  (is_sentinel item.1, item.1).

(** The rendered tree: index-keyed leaves under [n] sorted levels. *)
Fixpoint rendered (n : nat) : Type :=
  match n with
  | O => pydict nat string
  | S m => pydict string (rendered m)
  end.

Fixpoint to_sorted_dict (n : nat) : nest n -> rendered n :=
  match n with
  | O => fun obj => imap (fun i x => (i, x)) obj
  | S m => fun obj =>
      sorted_by _sort_key (pair_leb String.leb)
        ((fun kv => (kv.1, to_sorted_dict m kv.2)) <$> obj)
  end.

Definition main (fieldnames : list string) (rows : list csv_row)
  : rendered 8 :=
  to_sorted_dict 8 (nested_of (out_rows fieldnames rows)).

(** The leaf at a full path of the rendered tree. *)
Fixpoint leaf_at (n : nat) (keys : list string)
  : rendered n -> option (pydict nat string) :=
  match n with
  | O => fun leaf => match keys with [] => Some leaf | _ => None end
  | S m => fun d =>
      match keys with
      | [] => None
      | k :: keys' => PyDict.get k d ≫= leaf_at m keys'
      end
  end.

(** The sibling keys under a prefix of a path of the rendered tree, in the
    order the tree lists them. *)
Fixpoint keys_at (n : nat) (prefix : list string)
  : rendered n -> option (list string) :=
  match n with
  | O => fun _ => None
  | S m => fun d =>
      match prefix with
      | [] => Some d.*1
      | k :: prefix' => PyDict.get k d ≫= keys_at m prefix'
      end
  end.



(** The list of values at a full path of the tree being built. *)
Fixpoint nest_at (n : nat) (keys : list string) : nest n -> option (list string) :=
  match n with
  | O => fun leaf => match keys with [] => Some leaf | _ => None end
  | S m => fun d =>
      match keys with
      | [] => None
      | k :: keys' => PyDict.get k d ≫= nest_at m keys'
      end
  end.

(** A dict has each key once, at every level. *)
Fixpoint nest_wf (n : nat) : nest n -> Prop :=
  match n with
  | O => fun _ => True
  | S m => fun d => NoDup d.*1 ∧ Forall (fun kv => nest_wf m kv.2) d
  end.

End Quant.

(** ** build_dashboard_data.py: the sample field rows and the full payload *)

Module Samples.

(** [row.get(c, default)]: the default is for an absent column only. *)
Definition row_get_or (row : csv_row) (c default : string) : option string :=
  match row !! c with
  | None => Some default
  | Some v => v
  end.

(** [re.match(r"^(\d{4})-(\d{2})", s)] followed by
    [f"{ymm.group(1)}-{ymm.group(2)}"]. *)
Definition match_year_month (s : string) : option string :=
  match s with
  | String a (String b (String c (String d (String h (String e (String f _)))))) =>
      if is_digit a && is_digit b && is_digit c && is_digit d
         && Ascii.eqb h "-" && is_digit e && is_digit f
      then Some (String a (String b (String c (String d ""))) +:+ "-"
                 +:+ String e (String f ""))
      else None
  | _ => None
  end.

(** One element of [sample_field_spec_rows]; the fields are the keys
    "organism", "purpose of sampling",
    "geo loc name (state/province/territory)", "environmental site",
    "collection device", "assay type", "Year" and "Year-Month". *)
Record sample_row := {
  organism : string;
  purpose_of_sampling : string;
  state_province : string;
  environmental_site : string;
  collection_device : string;
  assay_type : string;
  Year : option nat;
  Year_Month : option string
}.

Definition sample_row_of (fuel : nat) (row : csv_row) : option sample_row :=
  let date_str := row_text row "sample collection start date" in
  let year := if nonempty date_str then Dashboard.match_year date_str else None in
  let year_month :=
    if nonempty date_str then match_year_month date_str else None in
  f1 ← trim_brackets fuel (row_get_or row "organism" "");
  f2 ← trim_brackets fuel (row_get_or row "purpose of sampling" "");
  f3 ← trim_brackets fuel
         (row_get_or row "geo loc name (state/province/territory)" "");
  f4 ← trim_brackets fuel (row_get_or row "environmental site" "");
  f5 ← trim_brackets fuel (row_get_or row "collection device" "");
  f6 ← trim_brackets fuel (row_get_or row "assay type" "");
  Some {| organism := f1; purpose_of_sampling := f2; state_province := f3;
          environmental_site := f4; collection_device := f5; assay_type := f6;
          Year := year; Year_Month := year_month |}.

(** The loop that fills [sample_field_spec_rows]. *)
Definition sample_field_spec_rows (fuel : nat) (rows : list csv_row)
  : option (list sample_row) :=
  mapM (sample_row_of fuel) rows.

(** The columns [trim_brackets] is applied to for the sample rows. *)
Definition TRIMMED_COLUMNS : list string :=
  [ "organism"; "purpose of sampling";
    "geo loc name (state/province/territory)"; "environmental site";
    "collection device"; "assay type" ].

(** The whole payload of [main]: the part of [Dashboard.main] with the
    catalog, the sample rows and the axis options (value, label). *)
Record payload := {
  p_base : Dashboard.payload;
  p_fields : list string;
  p_sampleFieldSpecRows : list sample_row;
  p_axisOptions : list (string * string)
}.

Definition main (fuel : nat) (province_coords : gmap string (pyfloat * pyfloat))
    (rows : list csv_row) : option payload :=
  base ← Dashboard.main fuel province_coords rows;
  samples ← sample_field_spec_rows fuel rows;
  Some {| p_base := base;
          p_fields := ["All Records"];
          p_sampleFieldSpecRows := samples;
          p_axisOptions :=
            (fun c => (c, c)) <$> (TRIMMED_COLUMNS ++ ["Year"; "Year-Month"]) |}.

End Samples.

(** ** Measures used to state the properties *)

(** Some '[' of [s] has a ']' after it: [re.sub] has a span to remove. *)
Fixpoint has_match (s : string) : bool :=
  match s with
  | "" => false
  | String c r => is_open c && has_close r || has_match r
  end.

(** The number a finite float stands for. *)
Definition float_to_Q (x : pyfloat) : option Q :=
  match x with
  | Finite s m => Some (if s then Qopp m else m)
  | _ => None
  end.

(** The sign bit. *)
Definition float_negative (x : pyfloat) : bool :=
  match x with
  | Finite s _ | Infinite s => s
  | NaN => false
  end.

(** [x == y] on floats compares the numbers: [0.0 == -0.0], and NaN is
    equal to nothing. *)
Definition float_eqb (x y : pyfloat) : bool :=
  match x, y with
  | Finite s m, Finite s' m' =>
      Qeq_bool (if s then Qopp m else m) (if s' then Qopp m' else m')
  | Infinite s, Infinite s' => Bool.eqb s s'
  | _, _ => false
  end.

(** A float as [float(text)] builds it: the magnitude of a finite value is
    a reduced fraction that is not negative. *)
Definition float_wf (x : pyfloat) : Prop :=
  match x with
  | Finite _ m => Qred m = m ∧ (0 <= Qnum m)%Z
  | _ => True
  end.

(** The sign [parse_lat_lon] gives a value for a hemisphere letter. *)
Definition signed_by (hemi : string) (value : pyfloat) : pyfloat :=
  if String.eqb hemi "S" || String.eqb hemi "W"
  then float_neg (float_abs value)
  else if String.eqb hemi "N" || String.eqb hemi "E"
  then float_abs value
  else value.

(** A finite float between [- bound] and [bound]. *)
Definition float_within (bound : Z) (x : pyfloat) : Prop :=
  ∃ q, float_to_Q x = Some q
       ∧ (inject_Z (- bound) <= q)%Q ∧ (q <= inject_Z bound)%Q.

(** The loop [for k in ks: d[k] = d.get(k, 0) + 1] from an empty dict. *)
Definition tally {K} `{EqDecision K} (ks : list K) : pydict K nat :=
  foldl (fun d k => PyDict.incr k d) [] ks.

(** The number of times [k] is in [ks]. *)
Definition occurrences {K} `{EqDecision K} (k : K) (ks : list K) : nat :=
  length (filter (eq k) ks).

(** The text of the source row a sub-record of slot [n] holds under the
    canonical column [col]: the slot's own column for a target field, the
    row's column for a metadata column of the header, nothing otherwise. *)
Definition source_text (fieldnames : list string) (row : csv_row) (n : nat)
    (col : string) : string :=
  if decide (col ∈ Quant.TARGET_BASE_NAMES)
  then row_text row (col +:+ " " +:+ Quant.str_of_nat n)
  else if decide (col ∈ Quant.METADATA_COLUMNS ∧ col ∈ fieldnames)
  then row_text row col
  else "".

(** The number of values held in a tree, before and after rendering. *)
Fixpoint nest_size (n : nat) : Quant.nest n -> nat :=
  match n with
  | O => fun leaf => length leaf
  | S m => fun d => sum_list (nest_size m <$> d.*2)
  end.

Fixpoint rendered_size (n : nat) : Quant.rendered n -> nat :=
  match n with
  | O => fun leaf => length leaf
  | S m => fun d => sum_list (rendered_size m <$> d.*2)
  end.

(** ** Rows for the examples *)

(** A row that has only the site column. *)
Definition site_row (site : string) : csv_row :=
  {[ "environmental site" := Some site ]}.

(** A row of the province table. *)
Definition province_row (name lat lon : string) : csv_row :=
  {[ "Province" := Some name; "Latitude" := Some lat; "Longitude" := Some lon ]}.

(** A row that has only the collection date column. *)
Definition date_row (date : string) : csv_row :=
  {[ "sample collection start date" := Some date ]}.

(** * Properties *)

(** ** Strings and brackets *)

Section StringFacts.

Lemma space_not_open c : is_space c = true -> is_open c = false.
Proof.
  intros Hs. unfold is_open.
  destruct (Ascii.eqb_spec c "[") as [-> | _]; [discriminate Hs | reflexivity].
Qed.

Lemma space_not_close c : is_space c = true -> is_close c = false.
Proof.
  intros Hs. unfold is_close.
  destruct (Ascii.eqb_spec c "]") as [-> | _]; [discriminate Hs | reflexivity].
Qed.

Lemma open_not_close c : is_open c = true -> is_close c = false.
Proof.
  unfold is_open, is_close. intros ->%Ascii.eqb_eq. reflexivity.
Qed.

Lemma prefix_empty s : String.prefix "" s = true.
Proof. by destruct s. Qed.

Lemma str_in_char a c r :
  str_in (String a "") (String c r)
  = Ascii.eqb c a || str_in (String a "") r.
Proof.
  cbn [str_in String.prefix]. rewrite prefix_empty.
  destruct (ascii_dec a c) as [-> | Hne].
  - by rewrite Ascii.eqb_refl.
  - destruct (Ascii.eqb_spec c a); [congruence | reflexivity].
Qed.

Lemma str_in_close s : str_in "]" s = has_close s.
Proof.
  induction s as [| c r IH]; [reflexivity |].
  rewrite str_in_char, IH. reflexivity.
Qed.

Lemma rstrip_head c r :
  is_space c = false -> rstrip (String c r) = String c (rstrip r).
Proof. intros Hc. cbn. rewrite Hc. by destruct (rstrip r). Qed.

Lemma rstrip_idem s : rstrip (rstrip s) = rstrip s.
Proof.
  induction s as [| c r IH]; [reflexivity |].
  cbn. destruct (rstrip r) as [| c' r'] eqn:Hr.
  - destruct (is_space c) eqn:Hc; [reflexivity |]. cbn. by rewrite Hc.
  - cbn. cbn in IH. destruct (rstrip r') as [| c'' r''] eqn:Hr'.
    + destruct (is_space c') eqn:Hc'; [discriminate IH |]. by rewrite IH.
    + by rewrite IH.
Qed.

Lemma lstrip_head s :
  match lstrip s with
  | "" => True
  | String c _ => is_space c = false
  end.
Proof.
  induction s as [| c r IH]; [exact I |].
  cbn. by destruct (is_space c) eqn:Hc.
Qed.

Lemma strip_idem s : strip (strip s) = strip s.
Proof.
  unfold strip. pose proof (lstrip_head s) as Hh.
  destruct (lstrip s) as [| c r]; [reflexivity |].
  rewrite (rstrip_head _ _ Hh). cbn [lstrip]. rewrite Hh.
  rewrite <- (rstrip_head _ _ Hh). apply rstrip_idem.
Qed.

Lemma strip_empty : strip "" = "".
Proof. reflexivity. Qed.

(** Stripping removes white space only: the brackets stay as they are. *)
Lemma skel_lstrip s : skel (lstrip s) = skel s.
Proof.
  induction s as [| c r IH]; [reflexivity |].
  cbn. destruct (is_space c) eqn:Hc; [| reflexivity].
  by rewrite (space_not_open _ Hc), (space_not_close _ Hc).
Qed.

Lemma skel_rstrip s : skel (rstrip s) = skel s.
Proof.
  induction s as [| c r IH]; [reflexivity |].
  cbn. destruct (rstrip r) as [| c' r'] eqn:Hr.
  - cbn in IH. rewrite <- IH.
    destruct (is_space c) eqn:Hc; [| reflexivity].
    by rewrite (space_not_open _ Hc), (space_not_close _ Hc).
  - cbn [skel]. by rewrite <- IH.
Qed.

Lemma skel_strip s : skel (strip s) = skel s.
Proof. unfold strip. by rewrite skel_rstrip, skel_lstrip. Qed.

Lemma has_close_skel s : has_close (skel s) = has_close s.
Proof.
  induction s as [| c r IH]; [reflexivity |].
  cbn. destruct (is_open c) eqn:Ho, (is_close c) eqn:Hc; cbn;
    rewrite ?Ho, ?Hc, ?IH; reflexivity.
Qed.

Lemma str_in_open_skel s : str_in "[" (skel s) = str_in "[" s.
Proof.
  induction s as [| c r IH]; [reflexivity |].
  rewrite str_in_char. cbn [skel]. fold (is_open c).
  destruct (is_open c) eqn:Ho, (is_close c) eqn:Hc; cbn [orb];
    rewrite ?str_in_char; fold (is_open c); rewrite ?Ho, ?IH; reflexivity.
Qed.

Lemma unclosed_skel s : unclosed (skel s) = unclosed s.
Proof.
  induction s as [| c r IH]; [reflexivity |].
  cbn. destruct (is_open c) eqn:Ho, (is_close c) eqn:Hc; cbn;
    rewrite ?Ho, ?Hc, ?IH, ?has_close_skel; reflexivity.
Qed.

Lemma flat_from_skel o s : flat_from o (skel s) = flat_from o s.
Proof.
  revert o. induction s as [| c r IH]; intros o; [reflexivity |].
  cbn. destruct (is_open c) eqn:Ho, (is_close c) eqn:Hc; cbn;
    rewrite ?Ho, ?Hc, ?IH; reflexivity.
Qed.

Lemma has_close_strip s : has_close (strip s) = has_close s.
Proof. by rewrite <- has_close_skel, skel_strip, has_close_skel. Qed.

Lemma str_in_open_strip s : str_in "[" (strip s) = str_in "[" s.
Proof. by rewrite <- str_in_open_skel, skel_strip, str_in_open_skel. Qed.

Lemma unclosed_strip s : unclosed (strip s) = unclosed s.
Proof. by rewrite <- unclosed_skel, skel_strip, unclosed_skel. Qed.

Lemma unclosed_open s : unclosed s = true -> str_in "[" s = true.
Proof.
  induction s as [| c r IH]; [discriminate |].
  rewrite str_in_char. fold (is_open c). cbn.
  destruct (is_open c); [reflexivity |]. exact IH.
Qed.

(** *** One pass of [re.sub] *)

Lemma sub_scan_no_close s : has_close s = false -> sub_scan false s = s.
Proof.
  induction s as [| c r IH]; [reflexivity |].
  cbn. intros [_ Hr]%orb_false_elim.
  rewrite Hr, andb_false_r. by rewrite IH.
Qed.

Lemma sub_scan_no_open s : str_in "[" s = false -> sub_scan false s = s.
Proof.
  induction s as [| c r IH]; [reflexivity |].
  rewrite str_in_char. fold (is_open c). intros [Ho Hr]%orb_false_elim.
  cbn. rewrite Ho. cbn. by rewrite IH.
Qed.

(** After one pass the only '[' left are the unclosed ones. *)
Lemma sub_scan_open s :
  str_in "[" (sub_scan false s) = unclosed s
  ∧ (has_close s = true -> str_in "[" (sub_scan true s) = unclosed s).
Proof.
  induction s as [| c r [IH1 IH2]]; [split; [reflexivity | discriminate] |].
  split.
  - cbn [sub_scan unclosed].
    destruct (is_open c) eqn:Ho, (has_close r) eqn:Hr; cbn [andb orb negb].
    + by apply IH2.
    + rewrite str_in_char. fold (is_open c). by rewrite Ho.
    + rewrite str_in_char. fold (is_open c). by rewrite Ho.
    + rewrite str_in_char. fold (is_open c). by rewrite Ho.
  - cbn [sub_scan unclosed has_close]. destruct (is_close c) eqn:Hc.
    + intros _. destruct (is_open c) eqn:Ho.
      * apply open_not_close in Ho. congruence.
      * exact IH1.
    + cbn [orb]. intros Hr. rewrite Hr, andb_false_r. by apply IH2.
Qed.

Lemma sub_scan_unclosed s :
  unclosed (sub_scan false s) = unclosed s
  ∧ (has_close s = true -> unclosed (sub_scan true s) = unclosed s).
Proof.
  induction s as [| c r [IH1 IH2]]; [split; [reflexivity | discriminate] |].
  split.
  - cbn [sub_scan unclosed].
    destruct (is_open c) eqn:Ho, (has_close r) eqn:Hr; cbn [andb orb negb].
    + by apply IH2.
    + cbn [unclosed]. by rewrite Ho, (sub_scan_no_close _ Hr), Hr.
    + cbn [unclosed]. by rewrite Ho, IH1.
    + cbn [unclosed]. by rewrite Ho, IH1.
  - cbn [sub_scan unclosed has_close]. destruct (is_close c) eqn:Hc.
    + intros _. destruct (is_open c) eqn:Ho.
      * apply open_not_close in Ho. congruence.
      * exact IH1.
    + cbn [orb]. intros Hr. rewrite Hr, andb_false_r. by apply IH2.
Qed.

Lemma flat_from_has_close s : flat_from true s = true -> has_close s = true.
Proof.
  induction s as [| c r IH]; [discriminate |].
  cbn. destruct (is_open c); [discriminate |].
  destruct (is_close c); [reflexivity |]. exact IH.
Qed.

(** On flat groups one pass removes every bracket character. *)
Lemma sub_scan_flat o s : flat_from o s = true -> skel (sub_scan o s) = "".
Proof.
  revert o. induction s as [| c r IH]; intros o; [reflexivity |].
  cbn [flat_from sub_scan].
  destruct (is_open c) eqn:Ho.
  - destruct o; [discriminate |]. cbn [negb andb]. intros Hr.
    rewrite (flat_from_has_close _ Hr). by apply IH.
  - destruct (is_close c) eqn:Hc.
    + destruct o; [| discriminate]. cbn [andb]. apply IH.
    + destruct o; cbn [andb].
      * apply IH.
      * intros Hr. cbn [skel]. rewrite Ho, Hc. by apply IH.
Qed.

Lemma skel_empty_no_bracket s : skel s = "" -> has_bracket s = false.
Proof.
  intros Hs. unfold has_bracket.
  rewrite <- str_in_open_skel, str_in_close, <- has_close_skel, Hs.
  reflexivity.
Qed.

(** *** The loop of [trim_brackets] *)

Lemma trim_loop_unclosed fuel out :
  unclosed out = true -> trim_loop fuel out = None.
Proof.
  revert out. induction fuel as [| n IH]; intros out Hu;
    cbn [trim_loop]; rewrite (unclosed_open _ Hu); [reflexivity |].
  apply IH. unfold re_sub_brackets.
  by rewrite (proj1 (sub_scan_unclosed out)).
Qed.

Lemma trim_loop_clean fuel out :
  str_in "[" out = false -> trim_loop fuel out = Some out.
Proof. intros H. destruct fuel; cbn [trim_loop]; by rewrite H. Qed.

Lemma trim_loop_closed fuel out :
  unclosed out = false -> trim_loop (S fuel) out = Some (re_sub_brackets out).
Proof.
  intros Hu. cbn [trim_loop]. destruct (str_in "[" out) eqn:Hin.
  - apply trim_loop_clean. unfold re_sub_brackets.
    by rewrite (proj1 (sub_scan_open out)).
  - unfold re_sub_brackets. by rewrite sub_scan_no_open.
Qed.

Lemma trim_loop_Some fuel out r :
  trim_loop fuel out = Some r ->
  unclosed out = false ∧ r = re_sub_brackets out.
Proof.
  intros Hr. destruct (unclosed out) eqn:Hu.
  - rewrite (trim_loop_unclosed _ _ Hu) in Hr. discriminate.
  - split; [reflexivity |]. destruct fuel as [| n].
    + cbn in Hr. destruct (str_in "[" out) eqn:Hin; [discriminate |].
      injection Hr as <-. unfold re_sub_brackets. by rewrite sub_scan_no_open.
    + rewrite (trim_loop_closed _ _ Hu) in Hr. by injection Hr.
Qed.

(** [trim_brackets] returns exactly on the texts with no unclosed '[',
    after at most one iteration, with the result of one pass. *)
Lemma trim_brackets_closed fuel s :
  unclosed s = false ->
  trim_brackets (S fuel) (Some s)
  = Some (strip (re_sub_brackets (strip s))).
Proof.
  intros Hu. unfold trim_brackets.
  rewrite trim_loop_closed; [reflexivity |]. by rewrite unclosed_strip.
Qed.

Lemma trim_brackets_unclosed fuel s :
  unclosed s = true -> trim_brackets fuel (Some s) = None.
Proof.
  intros Hu. unfold trim_brackets.
  rewrite trim_loop_unclosed; [reflexivity |]. by rewrite unclosed_strip.
Qed.

Lemma trim_brackets_Some fuel s r :
  trim_brackets fuel (Some s) = Some r ->
  unclosed s = false ∧ r = strip (re_sub_brackets (strip s)).
Proof.
  unfold trim_brackets. destruct (trim_loop fuel (strip s)) as [out |] eqn:Hl;
    [| discriminate].
  intros [= <-]. apply trim_loop_Some in Hl as [Hu ->].
  by rewrite unclosed_strip in Hu.
Qed.

Lemma trim_brackets_fuel fuel fuel' s r :
  trim_brackets fuel (Some s) = Some r ->
  trim_brackets (S fuel') (Some s) = Some r.
Proof.
  intros [Hu ->]%trim_brackets_Some. by apply trim_brackets_closed.
Qed.

End StringFacts.

(** C2 (amended): wherever [trim_brackets] returns, applying it again
    returns the same text and no '[' is left in it; when the bracket groups
    of the input are not nested (any number of them, one after another) no
    bracket character is left at all. Nested groups can leave a ']'. *)
Theorem trim_brackets_idempotent fuel (s : option string) (r : string) :
  trim_brackets fuel s = Some r ->
  (∀ fuel', trim_brackets fuel' (Some r) = Some r)
  ∧ str_in "[" r = false
  ∧ (∀ v, s = Some v -> flat_groups v = true -> has_bracket r = false).
Proof.
  intros Hr.
  assert (Hclean : str_in "[" r = false).
  { destruct s as [v |]; [| by injection Hr as <-].
    apply trim_brackets_Some in Hr as [Hu ->].
    rewrite str_in_open_strip. unfold re_sub_brackets.
    by rewrite (proj1 (sub_scan_open _)), unclosed_strip. }
  assert (Hstrip : strip r = r).
  { destruct s as [v |]; [| by injection Hr as <-].
    apply trim_brackets_Some in Hr as [_ ->]. apply strip_idem. }
  split; [| split; [exact Hclean |]].
  - intros fuel'. unfold trim_brackets.
    rewrite Hstrip, (trim_loop_clean _ _ Hclean). by rewrite Hstrip.
  - intros v -> Hflat. apply trim_brackets_Some in Hr as [_ ->].
    apply skel_empty_no_bracket. rewrite skel_strip.
    apply sub_scan_flat. by rewrite <- flat_from_skel, skel_strip, flat_from_skel.
Qed.

Lemma trim_brackets_idempotent_witness :
  (∀ fuel', trim_brackets fuel' (Some "Lake B  north") = Some "Lake B  north")
  ∧ str_in "[" "Lake B  north" = false
  ∧ (∀ v, Some " Lake B [site2] north [x] " = Some v ->
          flat_groups v = true -> has_bracket "Lake B  north" = false).
Proof.
  exact (trim_brackets_idempotent 1 (Some " Lake B [site2] north [x] ")
           "Lake B  north" eq_refl).
Defined.

(** C2 as stated fails on nested groups: the span removed from "[b [c]]" is
    "[b [c]", and the result keeps a bracket character. *)
Lemma trim_brackets_nested_keeps_bracket :
  trim_brackets 1 (Some "a [b [c]] d") = Some "a ] d"
  ∧ flat_groups "a [b [c]] d" = false
  ∧ has_bracket "a ] d" = true.
Proof. repeat split; reflexivity. Qed.

(** C3: on a text with a '[' and no ']' after it the loop never exits, no
    number of iterations is enough. *)
Theorem trim_brackets_unmatched_never_returns :
  ∀ fuel, trim_brackets fuel (Some "[abc") = None.
Proof. intros fuel. by apply trim_brackets_unclosed. Qed.

(** [trim_brackets] returns exactly on the texts without an unclosed '['. *)
Lemma trim_brackets_returns_iff s :
  (∃ fuel r, trim_brackets fuel (Some s) = Some r) ↔ unclosed s = false.
Proof.
  split.
  - intros (fuel & r & Hr). by apply trim_brackets_Some in Hr as [Hu _].
  - intros Hu. exists 1, (strip (re_sub_brackets (strip s))).
    by apply trim_brackets_closed.
Qed.

(** ** The coordinate parser *)

(** C8: the examples of the specification: 45.5 (sign plus, magnitude
    45.5), -45.5 (sign minus, magnitude 45.5), and [None] for the others.
    The texts that do not depend on the range give the same result for
    every axis kind. *)
Theorem parse_lat_lon_examples :
  (∀ kind, parse_lat_lon (Some "45.5 N") kind = Some (Finite false (Qred 45.5)))
  ∧ (∀ kind, parse_lat_lon (Some "45.5 S") kind = Some (Finite true (Qred 45.5)))
  ∧ parse_lat_lon (Some "200 N") "lat" = None
  ∧ (∀ kind, parse_lat_lon (Some "") kind = None)
  ∧ (∀ kind, parse_lat_lon (Some "--") kind = None)
  ∧ (∀ kind, parse_lat_lon (Some "not provided") kind = None).
Proof.
  repeat split; try reflexivity.
  - intros kind. unfold parse_lat_lon.
    set (a := String.eqb kind "lat"). set (b := String.eqb kind "lon").
    by destruct a, b.
  - intros kind. unfold parse_lat_lon.
    set (a := String.eqb kind "lat"). set (b := String.eqb kind "lon").
    by destruct a, b.
Qed.

(** ** The dashboard: growth series and time span *)

Section Growth.
Import Dashboard.
Variable province_coords : gmap string (pyfloat * pyfloat).

Lemma scan_rows_snoc rows row :
  scan_rows province_coords (rows ++ [row])
  = scan_step province_coords (scan_rows province_coords rows) row.
Proof. unfold scan_rows. by rewrite foldl_app. Qed.

Lemma dated_snoc rows row :
  dated (rows ++ [row]) = dated rows ++ option_list (row_year row).
Proof.
  unfold dated. rewrite omap_app. cbn. by destruct (row_year row).
Qed.

Lemma year_inv_step st ys row :
  year_inv st ys ->
  year_inv (scan_step province_coords st row) (ys ++ option_list (row_year row)).
Proof.
  intros [Hcount Hspan]. unfold scan_step.
  destruct (row_year row) as [y0 |]; cbn [option_list].
  2: { rewrite app_nil_r. split; cbn; assumption. }
  split; cbn [growth_by_year min_year max_year].
  - intros y. rewrite filter_app, length_app, <- Hcount.
    destruct (decide (y0 = y)) as [-> | Hne].
    + rewrite lookup_insert_eq. cbn. rewrite decide_True by reflexivity.
      reflexivity.
    + rewrite lookup_insert_ne by done. cbn.
      rewrite decide_False by congruence. cbn. lia.
  - destruct (min_year st) as [lo |], (max_year st) as [hi |]; cbn;
      try contradiction.
    + destruct Hspan as (Hlo & Hhi & Hall).
      assert (lo <= hi) by (rewrite Forall_forall in Hall; apply Hall in Hlo; lia).
      split; [| split].
      * destruct (Nat.min_spec y0 lo) as [[_ ->] | [_ ->]]; set_solver.
      * destruct (Nat.max_spec y0 hi) as [[_ ->] | [_ ->]]; set_solver.
      * rewrite Forall_app, Forall_singleton. split; [| lia].
        eapply Forall_impl; [exact Hall |]. cbn. lia.
    + subst ys. cbn. split; [set_solver | split; [set_solver |]].
      rewrite Forall_singleton. lia.
Qed.

Lemma scan_rows_years rows :
  year_inv (scan_rows province_coords rows) (dated rows).
Proof.
  induction rows as [| row rows IH] using rev_ind.
  - split; [intros y; cbn; by rewrite lookup_empty | reflexivity].
  - rewrite scan_rows_snoc, dated_snoc. by apply year_inv_step.
Qed.

(** The loop that emits the series. *)
Lemma growth_loop_years by_year c ys :
  year <$> growth_loop by_year c ys = ys.
Proof.
  revert c. induction ys as [| y ys IH]; intros c; [reflexivity |].
  cbn. by rewrite IH.
Qed.

Lemma growth_loop_adjacent by_year c ys i p q :
  growth_loop by_year c ys !! i = Some p ->
  growth_loop by_year c ys !! S i = Some q ->
  records q = records p + default 0 (by_year !! year q).
Proof.
  revert c i. induction ys as [| y ys IH]; intros c i; [discriminate |].
  destruct i as [| i]; cbn.
  - intros [= <-]. destruct ys as [| y' ys]; [discriminate |].
    cbn. by intros [= <-].
  - apply IH.
Qed.

Lemma growth_loop_last by_year c ys :
  ys ≠ [] ->
  records <$> last (growth_loop by_year c ys)
  = Some (c + sum_list ((fun y => default 0 (by_year !! y)) <$> ys)).
Proof.
  revert c. induction ys as [| y ys IH]; intros c Hne; [done |].
  destruct ys as [| y' ys].
  - cbn. f_equal. lia.
  - change (growth_loop by_year c (y :: y' :: ys))
      with ({| year := y; records := c + default 0 (by_year !! y) |}
              :: growth_loop by_year (c + default 0 (by_year !! y)) (y' :: ys)).
    rewrite last_cons.
    specialize (IH (c + default 0 (by_year !! y)) ltac:(done)).
    destruct (last (growth_loop by_year (c + default 0 (by_year !! y)) (y' :: ys)))
      as [p |] eqn:Hl; [| discriminate IH].
    rewrite IH. cbn. f_equal. lia.
Qed.

(** Counting a list of years over a range of years. *)
Lemma sum_occurrences (ys : list nat) a n :
  Forall (fun y => a <= y < a + n) ys ->
  sum_list ((fun y => length (filter (eq y) ys)) <$> seq a n) = length ys.
Proof.
  induction ys as [| z ys IH]; intros Hall.
  - cbn. induction (seq a n) as [| ? ? IHs]; [reflexivity | exact IHs].
  - apply Forall_cons in Hall as [Hz Hall]. specialize (IH Hall).
    cbn [length]. rewrite <- IH. clear IH Hall.
    revert a Hz. induction n as [| n IHn]; intros a Hz; [lia |].
    cbn [seq fmap list_fmap sum_list sum_list_with].
    destruct (decide (a = z)) as [-> | Hne].
    + rewrite filter_cons_True by reflexivity. cbn [length].
      assert (Hrest : ∀ b m, z < b ->
        sum_list ((fun y => length (filter (eq y) (z :: ys))) <$> seq b m)
        = sum_list ((fun y => length (filter (eq y) ys)) <$> seq b m)).
      { intros b m. revert b. induction m as [| m IHm]; intros b Hb;
          [reflexivity |].
        cbn [seq fmap list_fmap sum_list sum_list_with].
        rewrite filter_cons_False by lia. rewrite IHm by lia. reflexivity. }
      rewrite Hrest by lia.
      change (sum_list_with id ?l) with (sum_list l). unfold id. lia.
    + rewrite filter_cons_False by done.
      change (sum_list_with id ?l) with (sum_list l).
      rewrite IHn by lia. unfold id. lia.
Qed.

Lemma filter_eq_absent (y : nat) (ys : list nat) :
  y ∉ ys -> length (filter (eq y) ys) = 0.
Proof.
  intros Hy. induction ys as [| z ys IH]; [reflexivity |].
  apply not_elem_of_cons in Hy as [Hne Hy].
  rewrite filter_cons_False by done. by apply IH.
Qed.

(** The range of years the series runs over holds every dated year. *)
Lemma scan_rows_range rows :
  let st := scan_rows province_coords rows in
  let y_min := default 0 (min_year st) in
  let y_max := default 0 (max_year st) in
  y_min <= y_max
  ∧ Forall (fun y => y_min <= y < y_min + (y_max + 1 - y_min)) (dated rows).
Proof.
  cbn zeta. destruct (scan_rows_years rows) as [_ Hspan].
  destruct (min_year (scan_rows province_coords rows)) as [lo |],
    (max_year (scan_rows province_coords rows)) as [hi |]; cbn;
    try contradiction.
  - destruct Hspan as (Hlo & _ & Hall).
    assert (lo <= hi) by (rewrite Forall_forall in Hall; apply Hall in Hlo; lia).
    split; [assumption |].
    eapply Forall_impl; [exact Hall |]. cbn. lia.
  - rewrite Hspan. split; [lia | constructor].
Qed.

(** C7: consecutive points of the series are one year apart and never
    decrease, a year without new records repeats the value before it, the
    last value is the number of rows with a parsed year, and every such
    year strictly inside the time span is in the series next to its
    predecessor with the same value. *)
Theorem growth_series_cumulative rows :
  let st := scan_rows province_coords rows in
  let g := growth_of st in
  (∀ i p q, g !! i = Some p -> g !! S i = Some q ->
     year q = S (year p) ∧ records p <= records q
     ∧ (year q ∉ dated rows -> records q = records p))
  ∧ records <$> last g = Some (length (dated rows))
  ∧ (∀ lo hi y, min_year st = Some lo -> max_year st = Some hi ->
       lo < y <= hi -> y ∉ dated rows ->
       ∃ c, {| year := y - 1; records := c |} ∈ g
            ∧ {| year := y; records := c |} ∈ g).
Proof.
  cbn zeta.
  destruct (scan_rows_years rows) as [Hcount _].
  destruct (scan_rows_range rows) as [Hle Hall]. cbn zeta in Hle, Hall.
  assert (Hadj : ∀ i p q,
    growth_of (scan_rows province_coords rows) !! i = Some p ->
    growth_of (scan_rows province_coords rows) !! S i = Some q ->
    year q = S (year p) ∧ records p <= records q
    ∧ (year q ∉ dated rows -> records q = records p)).
  { intros i p q Hp Hq.
    pose proof (growth_loop_adjacent _ _ _ _ _ _ Hp Hq) as Hrec.
    assert (Hyp := f_equal (fmap year) Hp).
    assert (Hyq := f_equal (fmap year) Hq).
    rewrite <- !list_lookup_fmap in Hyp, Hyq. unfold growth_of in Hyp, Hyq.
    rewrite growth_loop_years in Hyp, Hyq. cbn in Hyp, Hyq.
    apply lookup_seq in Hyp as [Hyp _]. apply lookup_seq in Hyq as [Hyq _].
    split; [lia | split; [lia |]].
    intros Hnew. rewrite Hrec, Hcount, (filter_eq_absent _ _ Hnew). lia. }
  split; [exact Hadj | split].
  - unfold growth_of. rewrite growth_loop_last.
    + f_equal. cbn [Nat.add]. rewrite <- (sum_occurrences _ _ _ Hall).
      f_equal. apply list_fmap_ext. intros _ y _. apply Hcount.
    + intros Hnil%(f_equal length). rewrite length_seq in Hnil. cbn in Hnil. lia.
  - intros lo hi y Hlo Hhi Hy Hnew. rewrite Hlo, Hhi in Hle. cbn in Hle.
    assert (Hyears : year <$> growth_of (scan_rows province_coords rows)
                     = seq lo (hi + 1 - lo)).
    { unfold growth_of. rewrite growth_loop_years, Hlo, Hhi. reflexivity. }
    assert (Hp : (year <$> growth_of (scan_rows province_coords rows))
                   !! (y - 1 - lo) = Some (y - 1)).
    { rewrite Hyears. apply lookup_seq. lia. }
    assert (Hq : (year <$> growth_of (scan_rows province_coords rows))
                   !! S (y - 1 - lo) = Some y).
    { rewrite Hyears. apply lookup_seq. lia. }
    rewrite list_lookup_fmap in Hp, Hq.
    destruct (growth_of (scan_rows province_coords rows) !! (y - 1 - lo))
      as [[yp cp] |] eqn:Ep; [| discriminate].
    destruct (growth_of (scan_rows province_coords rows) !! S (y - 1 - lo))
      as [[yq cq] |] eqn:Eq; [| discriminate].
    cbn in Hp, Hq. injection Hp as ->. injection Hq as ->.
    destruct (Hadj _ _ _ Ep Eq) as (_ & _ & Hsame). cbn in Hsame.
    rewrite (Hsame Hnew) in Eq. exists cp.
    split; eapply list_elem_of_lookup_2; eassumption.
Qed.

(** C1, what the code does: when no collection date yields a year the time
    span is [None]/[None], and the series is not empty; it holds one point,
    year 0 with 0 records, because [range(y_min, y_max + 1)] runs over the
    defaults [y_min = y_max = 0]. *)
Theorem growth_without_dates rows :
  dated rows = [] ->
  let st := scan_rows province_coords rows in
  growth_of st = [ {| year := 0; records := 0 |} ]
  ∧ s_start (summary_of rows st) = None
  ∧ s_end (summary_of rows st) = None.
Proof.
  intros Hnone. cbn zeta.
  destruct (scan_rows_years rows) as [Hcount Hspan].
  rewrite Hnone in Hcount, Hspan. unfold growth_of, summary_of. cbn.
  destruct (min_year (scan_rows province_coords rows)) as [lo |],
    (max_year (scan_rows province_coords rows)) as [hi |];
    try contradiction.
  - destruct Hspan as [Hlo _]. by apply elem_of_nil in Hlo.
  - cbn. rewrite Hcount. done.
Qed.

End Growth.

Lemma growth_without_dates_witness :
  let rows := [date_row "not provided"; date_row ""; date_row "21-03-04"] in
  Dashboard.dated rows = []
  ∧ Dashboard.growth_of (Dashboard.scan_rows ∅ rows)
    = [ {| Dashboard.year := 0; Dashboard.records := 0 |} ].
Proof.
  cbn zeta.
  assert (Hnone : Dashboard.dated
    [date_row "not provided"; date_row ""; date_row "21-03-04"] = [])
    by (vm_compute; reflexivity).
  split; [exact Hnone |].
  exact (proj1 (growth_without_dates ∅ _ Hnone)).
Defined.

(** ** [sorted] and [dict] *)

Section SortedFacts.
Context {A K : Type} (key : A -> K) (leb : K -> K -> bool).

Lemma insert_by_perm x l : insert_by key leb x l ≡ₚ x :: l.
Proof.
  induction l as [| y l IH]; [reflexivity |].
  cbn. destruct (leb (key x) (key y)); [reflexivity |].
  rewrite IH. apply perm_swap.
Qed.

Lemma sorted_by_perm l : sorted_by key leb l ≡ₚ l.
Proof.
  induction l as [| x l IH]; [reflexivity |].
  cbn. rewrite insert_by_perm. by rewrite IH.
Qed.

Hypothesis leb_total : ∀ a b, leb a b = true ∨ leb b a = true.
Hypothesis leb_trans : ∀ a b c, leb a b = true -> leb b c = true -> leb a c = true.

Lemma insert_by_sorted x l :
  StronglySorted (key_leb key leb) l -> StronglySorted (key_leb key leb) (insert_by key leb x l).
Proof.
  induction 1 as [| y l Hl IH Hy]; cbn.
  - repeat constructor.
  - destruct (leb (key x) (key y)) eqn:Hxy.
    + constructor; [by constructor |].
      constructor; [exact Hxy |].
      eapply Forall_impl; [exact Hy |]. intros z Hz.
      unfold key_leb in *. eauto.
    + constructor; [exact IH |].
      rewrite insert_by_perm. constructor; [| exact Hy].
      unfold key_leb. destruct (leb_total (key x) (key y)); congruence.
Qed.

Lemma sorted_by_sorted l : StronglySorted (key_leb key leb) (sorted_by key leb l).
Proof.
  induction l as [| x l IH]; cbn; [constructor |].
  by apply insert_by_sorted.
Qed.

(** In a sorted list a later element never has a smaller key. *)
Lemma sorted_by_lookup l i j x y :
  sorted_by key leb l !! i = Some x ->
  sorted_by key leb l !! j = Some y ->
  i < j -> key_leb key leb x y.
Proof.
  generalize (sorted_by_sorted l). generalize (sorted_by key leb l).
  intros s Hs. revert i j. induction Hs as [| z s Hs IH Hz]; intros i j;
    [discriminate |].
  destruct i as [| i], j as [| j]; cbn; try lia.
  - intros [= <-] Hy _. rewrite Forall_forall in Hz. apply Hz.
    by eapply list_elem_of_lookup_2.
  - intros Hx Hy Hij. apply (IH i j Hx Hy). lia.
Qed.

End SortedFacts.

Lemma pair_leb_total {K} (leb : K -> K -> bool) :
  (∀ a b, leb a b = true ∨ leb b a = true) ->
  ∀ a b, pair_leb leb a b = true ∨ pair_leb leb b a = true.
Proof.
  intros Htot [[] a] [[] b]; unfold pair_leb; cbn; auto.
Qed.

Lemma pair_leb_trans {K} (leb : K -> K -> bool) :
  (∀ a b c, leb a b = true -> leb b c = true -> leb a c = true) ->
  ∀ a b c, pair_leb leb a b = true -> pair_leb leb b c = true ->
           pair_leb leb a c = true.
Proof.
  intros Htr [[] a] [[] b] [[] c]; unfold pair_leb; cbn; eauto; discriminate.
Qed.

Lemma Z_leb_total (a b : Z) : Z.leb a b = true ∨ Z.leb b a = true.
Proof. rewrite !Z.leb_le. lia. Qed.

Lemma Z_leb_trans (a b c : Z) :
  Z.leb a b = true -> Z.leb b c = true -> Z.leb a c = true.
Proof. rewrite !Z.leb_le. lia. Qed.

Lemma string_leb_trans (a b c : string) :
  String.leb a b = true -> String.leb b c = true -> String.leb a c = true.
Proof.
  intros Hab%Is_true_true Hbc%Is_true_true. apply Is_true_true.
  change (String.le a c). by etrans.
Qed.

Section DictFacts.
Context {K V : Type} `{EqDecision K}.
Implicit Types d : pydict K V.

Lemma dict_get_None k d : PyDict.get k d = None ↔ k ∉ d.*1.
Proof.
  induction d as [| [k' v'] d IH]; cbn.
  - split; [intros _; apply not_elem_of_nil | done].
  - rewrite not_elem_of_cons. destruct (decide (k = k')); [| by rewrite IH; tauto].
    split; [discriminate | tauto].
Qed.

Lemma dict_get_set k k' v d :
  PyDict.get k' (PyDict.set k v d)
  = if decide (k' = k) then Some v else PyDict.get k' d.
Proof.
  induction d as [| [k0 v0] d IH]; cbn.
  - reflexivity.
  - destruct (decide (k = k0)) as [-> | Hne]; cbn.
    + by destruct (decide (k' = k0)).
    + rewrite IH. destruct (decide (k' = k0)) as [-> | ?]; [| reflexivity].
      by rewrite decide_False.
Qed.

Lemma dict_keys_set k v d :
  (PyDict.set k v d).*1
  = if PyDict.get k d is Some _ then d.*1 else d.*1 ++ [k].
Proof.
  induction d as [| [k' v'] d IH]; cbn; [reflexivity |].
  destruct (decide (k = k')) as [-> | Hne]; cbn; [reflexivity |].
  rewrite IH. by destruct (PyDict.get k d).
Qed.

Lemma dict_set_NoDup k v d : NoDup d.*1 -> NoDup (PyDict.set k v d).*1.
Proof.
  intros Hd. rewrite dict_keys_set.
  destruct (PyDict.get k d) eqn:Hg; [exact Hd |].
  apply dict_get_None in Hg. apply NoDup_app. repeat split.
  - exact Hd.
  - intros x Hx ->%list_elem_of_singleton. contradiction.
  - apply NoDup_singleton.
Qed.

End DictFacts.

Lemma dict_set_sum {K} `{EqDecision K} (k : K) (v : nat) (d : pydict K nat) :
  sum_list (PyDict.set k v d).*2 + default 0 (PyDict.get k d)
  = sum_list d.*2 + v.
Proof.
  induction d as [| [k' n] d IH]; cbn; [lia |].
  destruct (decide (k = k')) as [-> | Hne]; cbn; lia.
Qed.

Lemma dict_incr_sum {K} `{EqDecision K} (k : K) (d : pydict K nat) :
  sum_list (PyDict.incr k d).*2 = S (sum_list d.*2).
Proof.
  unfold PyDict.incr.
  pose proof (dict_set_sum k (default 0 (PyDict.get k d) + 1) d). lia.
Qed.

Lemma dict_incr_NoDup {K} `{EqDecision K} (k : K) (d : pydict K nat) :
  NoDup d.*1 -> NoDup (PyDict.incr k d).*1.
Proof. apply dict_set_NoDup. Qed.

(** ** Floats as the scripts build them *)

Section FloatFacts.

Lemma div_nearest_even_nonneg a b :
  (0 <= a)%Z -> (0 < b)%Z -> (0 <= div_nearest_even a b)%Z.
Proof.
  intros Ha Hb. unfold div_nearest_even.
  pose proof (Z.div_pos a b Ha Hb).
  destruct (2 * (a mod b) ?= b)%Z; [destruct (Z.even (a / b)) | |]; lia.
Qed.

Lemma round_binary64_wf n d m :
  (0 <= n)%Z -> round_binary64 n d = Some m ->
  Qred m = m ∧ (0 <= Qnum m)%Z.
Proof.
  intros Hn. unfold round_binary64.
  destruct (n =? 0)%Z; [by intros [= <-] |].
  cbv zeta.
  set (e := if (_ <? _)%Z then _ else _).
  set (u := Z.max (e - 52) (-1074)).
  set (k := div_nearest_even _ _).
  assert (Hk : (0 <= k)%Z).
  { apply div_nearest_even_nonneg; [| apply Z.mul_pos_pos; [lia |]];
      [apply Z.mul_nonneg_nonneg; [lia |] |];
      apply Z.pow_pos_nonneg || apply Z.lt_le_incl, Z.pow_pos_nonneg; lia. }
  destruct (1024 <=? u + Z.log2 k)%Z; [discriminate |].
  intros [= <-]. split; [apply Qred_complete, Qred_correct |].
  set (q := if (0 <=? u)%Z then _ else _).
  assert (Hq : (0 <= q)%Q).
  { subst q. destruct (0 <=? u)%Z; unfold Qle; cbn [Qnum Qden].
    - assert (0 <= k * 2 ^ u)%Z; [| lia].
      apply Z.mul_nonneg_nonneg; [lia |]. apply Z.pow_nonneg. lia.
    - lia. }
  rewrite <- (Qred_correct q) in Hq. unfold Qle in Hq. cbn in Hq. lia.
Qed.

Lemma float_of_fraction_wf negative n d :
  (0 <= n)%Z -> float_wf (float_of_fraction negative n d).
Proof.
  intros Hn. unfold float_of_fraction.
  destruct (round_binary64 n d) as [m |] eqn:Hm; [| done].
  by apply (round_binary64_wf n d).
Qed.

Lemma is_digit_val c : is_digit c = true -> (0 <= digit_val c)%Z.
Proof.
  destruct c as [[] [] [] [] [] [] [] []]; cbn; intros H;
    first [discriminate H | by vm_compute].
Qed.

Lemma digits_val_nonneg s acc m :
  (0 <= acc)%Z -> digits_val acc s = Some m -> (0 <= m)%Z.
Proof.
  revert acc. induction s as [| c r IH]; intros acc Hacc; cbn.
  - by intros [= <-].
  - destruct (is_digit c) eqn:Hc; [| discriminate].
    apply IH. pose proof (is_digit_val c Hc). lia.
Qed.

Lemma unsigned_decimal_wf negative s v :
  unsigned_decimal negative s = Some v -> float_wf v.
Proof.
  unfold unsigned_decimal. destruct (span is_digit s) as [ds rest].
  destruct (nonempty ds); [| discriminate].
  destruct rest as [| c fs].
  - destruct (digits_val 0 ds) as [m |] eqn:Hm; [| discriminate].
    intros [= <-]. apply float_of_fraction_wf.
    by apply (digits_val_nonneg ds 0%Z).
  - destruct (Ascii.eqb_spec c ".") as [-> | Hne].
    + destruct (nonempty fs); [| discriminate].
      destruct (digits_val 0 (ds +:+ fs)) as [m |] eqn:Hm; [| discriminate].
      intros [= <-]. apply float_of_fraction_wf.
      by apply (digits_val_nonneg (ds +:+ fs) 0%Z).
    + intros H. exfalso. revert H.
      destruct c as [[] [] [] [] [] [] [] []]; try discriminate.
      by destruct Hne.
Qed.

Lemma float_of_decimal_wf s v : float_of_decimal s = Some v -> float_wf v.
Proof.
  unfold float_of_decimal. intros H.
  assert (∃ b r, unsigned_decimal b r = Some v) as (b & r & Hv).
  { destruct s as [| c r]; [by exists false, "" |].
    destruct (Ascii.eqb_spec c "-") as [-> | Hne]; [by exists true, r |].
    exists false, (String c r). revert H.
    destruct c as [[] [] [] [] [] [] [] []]; done. }
  by apply unsigned_decimal_wf in Hv.
Qed.

Lemma parse_lat_lon_wf raw kind v :
  parse_lat_lon raw kind = Some v -> float_wf v.
Proof.
  unfold parse_lat_lon. destruct raw as [text |]; [| discriminate].
  destruct (negb (nonempty (strip text)) || String.eqb (strip text) "--"
            || str_in "not provided" (lower (strip text))); [discriminate |].
  destruct (match_lat_lon (strip text)) as [[g1 g2] |]; [| discriminate].
  destruct (float_of_decimal g1) as [value |] eqn:Hval; [| discriminate].
  apply float_of_decimal_wf in Hval.
  fold (signed_by (map_chars upper_char (default "" g2)) value).
  set (w := signed_by _ value).
  assert (Hw : float_wf w).
  { subst w. unfold signed_by.
    repeat match goal with
           | |- context [if ?b then _ else _] => destruct b
           end; by destruct value. }
  clearbody w.
  repeat match goal with
         | |- context [if ?b then _ else _] => destruct b
         end; try discriminate.
  by intros [= <-].
Qed.

(** Two floats of this form that compare equal and are not the same value
    are the two zeros. *)
Lemma float_eqb_zeros x y :
  float_wf x -> float_wf y -> float_eqb x y = true -> x ≠ y ->
  float_to_Q x = Some 0%Q ∧ float_to_Q y = Some 0%Q
  ∧ float_negative x ≠ float_negative y.
Proof.
  destruct x as [s m | s |], y as [s' m' | s' |]; cbn; try discriminate.
  - intros [Hm Hm0] [Hm' Hm0'] Heq Hne. apply Qeq_bool_iff in Heq.
    assert (Hz : ∀ q, Qred q = q -> (Qnum q = 0)%Z -> q = 0%Q).
    { intros q Hq Hq0. rewrite <- Hq. change 0%Q with (Qred 0).
      apply Qred_complete. unfold Qeq. cbn. lia. }
    destruct s, s'.
    + exfalso. apply Hne. f_equal. rewrite <- Hm, <- Hm'.
      apply Qred_complete. unfold Qeq in *. cbn in *. lia.
    + unfold Qeq in Heq. cbn in Heq.
      assert (Qnum m = 0 ∧ Qnum m' = 0)%Z as [H0 H0'] by nia.
      rewrite (Hz m Hm H0), (Hz m' Hm' H0'). by repeat split.
    + unfold Qeq in Heq. cbn in Heq.
      assert (Qnum m = 0 ∧ Qnum m' = 0)%Z as [H0 H0'] by nia.
      rewrite (Hz m Hm H0), (Hz m' Hm' H0'). by repeat split.
    + exfalso. apply Hne. f_equal. rewrite <- Hm, <- Hm'.
      by apply Qred_complete.
  - intros _ _ Heq Hne. apply Bool.eqb_prop in Heq. by subst.
Qed.

End FloatFacts.

(** ** The dashboard: coverage points *)

Section Coverage.
Import Dashboard.
Variable province_coords : gmap string (pyfloat * pyfloat).

(** A row is located by its own two axes when both parse, and by the
    province table otherwise. *)
Lemma resolve_coord_direct_or_fallback row :
  resolve_coord province_coords row
  = match parse_lat_lon (row_get row "geo loc latitude") "lat",
          parse_lat_lon (row_get row "geo loc longitude") "lon" with
    | Some lat, Some lon => Some (lat, lon)
    | _, _ =>
        let state_province :=
          row_text row "geo loc name (state/province/territory)" in
        if nonempty state_province
        then province_coords !! state_province else None
    end.
Proof.
  unfold resolve_coord.
  destruct (parse_lat_lon (row_get row "geo loc latitude") "lat") as [lat |],
    (parse_lat_lon (row_get row "geo loc longitude") "lon") as [lon |];
    try reflexivity; cbn zeta;
    destruct (nonempty (row_text row "geo loc name (state/province/territory)"));
    try reflexivity;
    by destruct (province_coords
                   !! row_text row "geo loc name (state/province/territory)")
      as [[la lo] |].
Qed.

Lemma coord_counts_step st row :
  coord_counts (scan_step province_coords st row)
  = match resolve_coord province_coords row with
    | Some key => PyDict.incr key (coord_counts st)
    | None => coord_counts st
    end.
Proof. unfold scan_step. by destruct (row_year row). Qed.

Lemma located_snoc rows row :
  located province_coords (rows ++ [row])
  = located province_coords rows
    ++ option_list (resolve_coord province_coords row).
Proof.
  unfold located. rewrite omap_app. cbn.
  by destruct (resolve_coord province_coords row).
Qed.

Lemma scan_rows_coords rows :
  let d := coord_counts (scan_rows province_coords rows) in
  sum_list d.*2 = length (located province_coords rows) ∧ NoDup d.*1.
Proof.
  induction rows as [| row rows [IHsum IHdup]] using rev_ind.
  - split; [reflexivity | constructor].
  - cbn zeta. rewrite scan_rows_snoc, located_snoc, length_app, coord_counts_step.
    destruct (resolve_coord province_coords row) as [key |]; cbn.
    + rewrite dict_incr_sum, IHsum. split; [lia |]. by apply dict_incr_NoDup.
    + rewrite IHsum. split; [lia | exact IHdup].
Qed.

End Coverage.

Section CoveragePoints.
Import Dashboard.
Variable province_coords : gmap string (pyfloat * pyfloat).

Lemma dict_incr_keys {K} `{EqDecision K} (k x : K) (d : pydict K nat) :
  x ∈ (PyDict.incr k d).*1 -> x = k ∨ x ∈ d.*1.
Proof.
  unfold PyDict.incr. rewrite dict_keys_set.
  destruct (PyDict.get k d); [by right |].
  intros [? | ->%list_elem_of_singleton]%elem_of_app; [by right | by left].
Qed.

(** Every key of [coord_counts] is the coordinate of some row. *)
Lemma coord_counts_keys_resolved rows c :
  c ∈ (coord_counts (scan_rows province_coords rows)).*1 ->
  ∃ row, row ∈ rows ∧ resolve_coord province_coords row = Some c.
Proof.
  induction rows as [| row rows IH] using rev_ind.
  - by intros ?%elem_of_nil.
  - rewrite scan_rows_snoc, coord_counts_step.
    destruct (resolve_coord province_coords row) as [key |] eqn:Hr.
    + intros [-> | Hc]%dict_incr_keys.
      * exists row. split; [| exact Hr]. apply elem_of_app. right.
        apply list_elem_of_here.
      * destruct (IH Hc) as (row' & Hin & Hres). exists row'.
        split; [| exact Hres]. apply elem_of_app. by left.
    + intros Hc. destruct (IH Hc) as (row' & Hin & Hres). exists row'.
      split; [| exact Hres]. apply elem_of_app. by left.
Qed.

Lemma resolve_coord_wf row c :
  map_Forall (fun _ c => float_wf c.1 ∧ float_wf c.2) province_coords ->
  resolve_coord province_coords row = Some c ->
  float_wf c.1 ∧ float_wf c.2.
Proof.
  intros Hwf. rewrite resolve_coord_direct_or_fallback.
  destruct (parse_lat_lon (row_get row "geo loc latitude") "lat")
    as [lat |] eqn:Hlat;
    destruct (parse_lat_lon (row_get row "geo loc longitude") "lon")
      as [lon |] eqn:Hlon; cbn zeta.
  1: { intros [= <-]. split; cbn; by eapply parse_lat_lon_wf. }
  all: destruct (nonempty _); [| discriminate]; intros Hc;
    exact (Hwf _ _ Hc).
Qed.

(** C6: the counts of the emitted points add up to the number of rows a
    coordinate was resolved for; the points have pairwise different
    (latitude, longitude) pairs as float values, where [0.0] and [-0.0]
    are two values, as they are two texts in the key of [coord_counts];
    and two points whose coordinates compare equal with [==] differ in the
    sign of a zero latitude or of a zero longitude (the province table
    holding floats as [float] builds them). *)
Theorem coverage_points_counts rows :
  let points := coverage_of (scan_rows province_coords rows) in
  sum_list (count <$> points) = length (located province_coords rows)
  ∧ NoDup ((fun p => (latitude p, longitude p)) <$> points)
  ∧ (map_Forall (fun _ c => float_wf c.1 ∧ float_wf c.2) province_coords ->
     ∀ i j p q, points !! i = Some p -> points !! j = Some q -> i ≠ j ->
       float_eqb (latitude p) (latitude q) = true ->
       float_eqb (longitude p) (longitude q) = true ->
       (float_to_Q (latitude p) = Some 0%Q ∧ float_to_Q (latitude q) = Some 0%Q
        ∧ float_negative (latitude p) ≠ float_negative (latitude q))
       ∨ (float_to_Q (longitude p) = Some 0%Q
          ∧ float_to_Q (longitude q) = Some 0%Q
          ∧ float_negative (longitude p) ≠ float_negative (longitude q))).
Proof.
  cbn zeta. destruct (scan_rows_coords province_coords rows) as [Hsum Hdup].
  assert (Hkeys : (fun p => (latitude p, longitude p))
                    <$> coverage_of (scan_rows province_coords rows)
                  ≡ₚ (coord_counts (scan_rows province_coords rows)).*1).
  { unfold coverage_of. rewrite sorted_by_perm, <- list_fmap_compose.
    erewrite list_fmap_ext; [reflexivity |]. by intros _ [[lat lon] n] _. }
  assert (Hnodup : NoDup ((fun p => (latitude p, longitude p))
                            <$> coverage_of (scan_rows province_coords rows)))
    by by rewrite Hkeys.
  split; [| split; [exact Hnodup |]].
  - unfold coverage_of. rewrite sorted_by_perm, <- list_fmap_compose, <- Hsum.
    f_equal. apply list_fmap_ext. by intros _ [[lat lon] n] _.
  - intros Hwf i j p q Hp Hq Hij Hlat Hlon.
    assert (Hpq : (latitude p, longitude p) ≠ (latitude q, longitude q)).
    { intros Heq. apply Hij. eapply NoDup_lookup; [exact Hnodup | |].
      - rewrite list_lookup_fmap, Hp. reflexivity.
      - rewrite list_lookup_fmap, Hq. cbn. by rewrite Heq. }
    assert (Hwfp : ∀ i p, coverage_of (scan_rows province_coords rows) !! i
                          = Some p ->
                   float_wf (latitude p) ∧ float_wf (longitude p)).
    { intros i' p' Hp'.
      assert (Hin : (latitude p', longitude p')
                    ∈ (coord_counts (scan_rows province_coords rows)).*1).
      { rewrite <- Hkeys. apply list_elem_of_fmap. exists p'.
        split; [reflexivity |]. by eapply list_elem_of_lookup_2. }
      apply coord_counts_keys_resolved in Hin as (row & _ & Hres).
      exact (resolve_coord_wf row _ Hwf Hres). }
    destruct (Hwfp i p Hp) as [Hp1 Hp2], (Hwfp j q Hq) as [Hq1 Hq2].
    destruct (decide (latitude p = latitude q)) as [Hl | Hl].
    + right. apply float_eqb_zeros; [done | done | done |].
      intros Hlo. apply Hpq. by rewrite Hl, Hlo.
    + left. by apply float_eqb_zeros.
Qed.

End CoveragePoints.

Lemma coverage_points_counts_witness :
  let rows : list csv_row :=
    [ {[ "geo loc latitude" := Some "45.5 N";
         "geo loc longitude" := Some "75.7 W" ]};
      {[ "geo loc latitude" := Some "0";
         "geo loc longitude" := Some "0 W" ]};
      {[ "geo loc latitude" := Some "-0";
         "geo loc longitude" := Some "0 W" ]};
      {[ "geo loc latitude" := Some "45.5";
         "geo loc longitude" := Some "-75.7" ]} ] in
  let points := Dashboard.coverage_of (Dashboard.scan_rows ∅ rows) in
  sum_list (Dashboard.count <$> points) = 4
  ∧ length points = 3
  ∧ ∀ p q, points !! 1 = Some p -> points !! 2 = Some q ->
      float_to_Q (Dashboard.latitude p) = Some 0%Q
      ∧ float_negative (Dashboard.latitude p)
        ≠ float_negative (Dashboard.latitude q).
Proof.
  cbn zeta.
  pose proof (coverage_points_counts ∅
    [ {[ "geo loc latitude" := Some "45.5 N";
         "geo loc longitude" := Some "75.7 W" ]};
      {[ "geo loc latitude" := Some "0";
         "geo loc longitude" := Some "0 W" ]};
      {[ "geo loc latitude" := Some "-0";
         "geo loc longitude" := Some "0 W" ]};
      {[ "geo loc latitude" := Some "45.5";
         "geo loc longitude" := Some "-75.7" ]} ]) as (Hsum & _ & Hzero).
  split; [rewrite Hsum; by vm_compute | split; [by vm_compute |]].
  intros p q Hp Hq.
  destruct (Hzero (map_Forall_empty _) 1 2 p q Hp Hq) as [(H1 & _ & H2) | (_ & _ & H2)].
  - done.
  - revert Hp Hq. vm_compute. by intros [= <-] [= <-].
  - revert Hp Hq. vm_compute. by intros [= <-] [= <-].
  - by split.
  - exfalso. apply H2. revert Hp Hq. vm_compute. by intros [= <-] [= <-].
Defined.

(** C6 as stated fails on the two zeros: "0 E" reads as [0.0] and "0 W" as
    [-0.0], the key texts "0.0,0.0" and "0.0,-0.0" differ, and two points
    are emitted whose latitudes and longitudes are equal numbers. *)
Lemma coverage_points_share_pair :
  let rows : list csv_row :=
    [ {[ "geo loc latitude" := Some "0"; "geo loc longitude" := Some "0 E" ]};
      {[ "geo loc latitude" := Some "0"; "geo loc longitude" := Some "0 W" ]} ] in
  let points := Dashboard.coverage_of (Dashboard.scan_rows ∅ rows) in
  points
  = [ {| Dashboard.latitude := Finite false 0;
         Dashboard.longitude := Finite false 0; Dashboard.count := 1 |};
      {| Dashboard.latitude := Finite false 0;
         Dashboard.longitude := Finite true 0; Dashboard.count := 1 |} ]
  ∧ float_eqb (Finite false 0) (Finite false 0) = true
  ∧ float_eqb (Finite false 0) (Finite true 0) = true
  ∧ float_to_Q (Finite false 0) = float_to_Q (Finite true 0).
Proof. cbn zeta. split; [by vm_compute | by vm_compute]. Qed.

(** ** The dashboard: breakdown *)

Section Breakdown.
Import Dashboard.

Lemma count_by_snoc label rows row :
  count_by label (rows ++ [row])
  = d ← count_by label rows; l ← label row; Some (PyDict.incr l d).
Proof. unfold count_by. by rewrite foldl_app. Qed.


Lemma count_by_returns label rows :
  Forall (fun row => is_Some (label row)) rows -> is_Some (count_by label rows).
Proof.
  induction rows as [| row rows IH] using rev_ind; intros Hall.
  - by eexists.
  - apply Forall_app in Hall as [Hrows [[l Hl] _]%Forall_cons].
    destruct (IH Hrows) as [d Hd].
    rewrite count_by_snoc, Hd. cbn. rewrite Hl. by eexists.
Qed.

Lemma site_label_returns fuel row :
  (∀ v, row_get row "environmental site" = Some v -> unclosed v = false) ->
  is_Some (site_label (S fuel) row).
Proof.
  intros Hv. unfold site_label.
  destruct (row_get row "environmental site") as [v |].
  - rewrite (trim_brackets_closed _ _ (Hv v eq_refl)). by eexists.
  - by eexists.
Qed.

(** The breakdown is produced whenever [trim_brackets] returns on the rows. *)
Lemma breakdown_returns fuel rows :
  sites_closed rows -> is_Some (breakdown_of (S fuel) rows).
Proof.
  intros Hall. unfold breakdown_of.
  destruct (count_by_returns (site_label (S fuel)) rows) as [sc ->].
  { eapply Forall_impl; [exact Hall |]. intros row. apply site_label_returns. }
  cbn.
  destruct (count_by_returns (category (S fuel) (top_sites_of sc)) rows)
    as [cc ->]; [| by eexists].
  eapply Forall_impl; [exact Hall |]. intros row Hrow. unfold category.
  destruct (site_label_returns fuel row Hrow) as [l ->]. by eexists.
Qed.


End Breakdown.



(** ** The province table *)

Section ProvinceFacts.
Variable py_float : string -> option pyfloat.

Lemma strip_head_not_space s :
  match strip s with
  | "" => True
  | String c _ => is_space c = false
  end.
Proof.
  unfold strip. pose proof (lstrip_head s) as Hh.
  destruct (lstrip s) as [| c r]; [exact I |].
  by rewrite (rstrip_head _ _ Hh).
Qed.

(** The short form of a stripped, non-empty name is not empty. *)
Lemma short_name_nonempty s :
  nonempty (strip s) = true -> nonempty (short_name (strip s)) = true.
Proof.
  pose proof (strip_head_not_space s) as Hh.
  destruct (strip s) as [| c r]; [discriminate |]. intros _.
  unfold short_name.
  assert (Hb : before_first " [" (String c r)
               = String c (before_first " [" r)).
  { cbn [before_first String.prefix].
    destruct (ascii_dec " " c) as [<- | _]; [discriminate Hh | reflexivity]. }
  rewrite Hb. unfold strip. cbn [lstrip]. rewrite Hh.
  by rewrite (rstrip_head _ _ Hh).
Qed.





End ProvinceFacts.



(** ** The nester: target expansion and the empty-target filter *)

Section Expansion.
Import Quant.

(** A loop [for k in ks: o[k] = f(k)] on a dict. *)
Lemma lookup_foldl_insert (f : string -> string) (ks : list string)
    (o : gmap string string) (k : string) :
  foldl (fun o c => <[c := f c]> o) o ks !! k
  = if decide (k ∈ ks) then Some (f k) else o !! k.
Proof.
  induction ks as [| c ks IH] using rev_ind.
  - cbn. by rewrite decide_False by apply not_elem_of_nil.
  - rewrite foldl_app. cbn. destruct (decide (c = k)) as [-> | Hne].
    + rewrite lookup_insert_eq, decide_True; [done |].
      apply elem_of_app. right. by apply list_elem_of_singleton.
    + rewrite lookup_insert_ne, IH by done.
      destruct (decide (k ∈ ks)) as [Hin | Hout].
      * rewrite decide_True; [done |]. apply elem_of_app. by left.
      * rewrite decide_False; [done |].
        intros [? | ?%list_elem_of_singleton]%elem_of_app; congruence.
Qed.

Lemma expand_target_base meta_ok row n base :
  base ∈ TARGET_BASE_NAMES ->
  expand_target meta_ok row n !! base
  = Some (row_text row (base +:+ " " +:+ str_of_nat n)).
Proof.
  intros Hb. unfold expand_target.
  rewrite (lookup_foldl_insert
             (fun base => row_text row (base +:+ " " +:+ str_of_nat n))).
  by rewrite decide_True.
Qed.

Lemma expand_target_slot meta_ok row n :
  expand_target meta_ok row n !! "target" = Some (str_of_nat n).
Proof.
  unfold expand_target.
  rewrite (lookup_foldl_insert
             (fun base => row_text row (base +:+ " " +:+ str_of_nat n))).
  rewrite decide_False; [apply lookup_insert_eq |].
  intros Hin%(bool_decide_pack _). by vm_compute in Hin.
Qed.

Lemma out_text_expand_target meta_ok row n base :
  base ∈ TARGET_BASE_NAMES ->
  out_text (expand_target meta_ok row n) base
  = row_text row (base +:+ " " +:+ str_of_nat n).
Proof.
  intros Hb. unfold out_text. rewrite (expand_target_base _ _ _ _ Hb).
  cbn. apply strip_idem.
Qed.

Lemma nonempty_true s : nonempty s = true ↔ s ≠ "".
Proof. by destruct s. Qed.

(** C9: every row gives three sub-records, for the slots 1, 2 and 3 in this
    order; a sub-record passes the filter exactly when one of its seven
    target fields is not empty after trimming, which for the sub-record of
    slot [n] is one of the columns ["<base> <n>"] of the row; the rows kept
    are the sub-records that pass. *)
Theorem target_expansion_and_filter (fieldnames : list string)
    (rows : list csv_row) :
  let meta_ok := meta_ok_of fieldnames in
  let subs := expand meta_ok rows in
  length subs = 3 * length rows
  ∧ (∀ row, expand_row meta_ok row
            = [expand_target meta_ok row 1; expand_target meta_ok row 2;
               expand_target meta_ok row 3]
            ∧ (fun r => r !! "target") <$> expand_row meta_ok row
              = [Some "1"; Some "2"; Some "3"])
  ∧ length TARGET_BASE_NAMES = 7
  ∧ (∀ r, has_target_info r = true
          ↔ ∃ base, base ∈ TARGET_BASE_NAMES ∧ strip (default "" (r !! base)) ≠ "")
  ∧ (∀ row n, has_target_info (expand_target meta_ok row n) = true
          ↔ ∃ base, base ∈ TARGET_BASE_NAMES
                    ∧ row_text row (base +:+ " " +:+ str_of_nat n) ≠ "")
  ∧ (∀ r, r ∈ out_rows fieldnames rows ↔ r ∈ subs ∧ has_target_info r = true).
Proof.
  cbn zeta.
  assert (Hinfo : ∀ r, has_target_info r = true
    ↔ ∃ base, base ∈ TARGET_BASE_NAMES ∧ strip (default "" (r !! base)) ≠ "").
  { intros r. unfold has_target_info. rewrite existsb_exists.
    split; intros (base & Hin & Hne); exists base.
    - split; [by apply list_elem_of_In | by apply nonempty_true].
    - split; [by apply list_elem_of_In | by apply nonempty_true]. }
  split; [| split; [| split; [| split; [| split]]]].
  - unfold expand. induction rows as [| row rows IH]; [reflexivity |].
    cbn [mbind list_bind]. rewrite length_app, IH. cbn. lia.
  - intros row. split; [reflexivity |].
    unfold expand_row. cbn [fmap list_fmap]. by rewrite !expand_target_slot.
  - reflexivity.
  - exact Hinfo.
  - intros row n. split.
    + intros (base & Hb & Hne)%Hinfo. exists base. split; [exact Hb |].
      by rewrite <- (out_text_expand_target (meta_ok_of fieldnames)).
    + intros (base & Hb & Hne). apply Hinfo. exists base. split; [exact Hb |].
      fold (out_text (expand_target (meta_ok_of fieldnames) row n) base).
      by rewrite out_text_expand_target.
  - intros r. unfold out_rows. rewrite sorted_by_perm.
    rewrite list_elem_of_In, filter_In, <- list_elem_of_In. reflexivity.
Qed.

End Expansion.

(** ** The nester: the nested fold and its rendering *)

Section DictOrder.
Context {K V : Type} `{EqDecision K}.
Implicit Types d : pydict K V.

Lemma dict_get_elem k v d : PyDict.get k d = Some v -> (k, v) ∈ d.
Proof.
  induction d as [| [k' v'] d IH]; cbn; [discriminate |].
  destruct (decide (k = k')) as [-> | Hne].
  - intros [= ->]. apply list_elem_of_here.
  - intros Hg. apply list_elem_of_further. by apply IH.
Qed.

Lemma dict_elem_get k v d : NoDup d.*1 -> (k, v) ∈ d -> PyDict.get k d = Some v.
Proof.
  induction d as [| [k' v'] d IH]; cbn; intros Hdup Hin.
  - by apply elem_of_nil in Hin.
  - apply NoDup_cons in Hdup as [Hk' Hdup].
    apply elem_of_cons in Hin as [[= -> ->] | Hin].
    + by rewrite decide_True.
    + rewrite decide_False; [by apply IH |].
      intros ->. apply Hk'. apply list_elem_of_fmap. by exists (k', v).
Qed.

Lemma dict_get_perm k d d' :
  NoDup d.*1 -> d ≡ₚ d' -> PyDict.get k d' = PyDict.get k d.
Proof.
  intros Hdup Hperm.
  assert (Hdup' : NoDup d'.*1) by by rewrite <- Hperm.
  destruct (PyDict.get k d) as [v |] eqn:Hg.
  - apply dict_elem_get; [exact Hdup' |]. rewrite <- Hperm. by apply dict_get_elem.
  - apply dict_get_None. rewrite <- Hperm. by apply dict_get_None.
Qed.

Lemma dict_get_fmap {W} (f : V -> W) k d :
  PyDict.get k ((fun kv => (kv.1, f kv.2)) <$> d) = f <$> PyDict.get k d.
Proof.
  induction d as [| [k' v'] d IH]; cbn; [reflexivity |].
  destruct (decide (k = k')); [reflexivity | exact IH].
Qed.

Lemma dict_keys_fmap {W} (f : V -> W) d :
  ((fun kv => (kv.1, f kv.2)) <$> d).*1 = d.*1.
Proof. rewrite <- list_fmap_compose. by apply list_fmap_ext. Qed.

Lemma dict_set_Forall (P : V -> Prop) k v d :
  Forall (fun kv => P kv.2) d -> P v ->
  Forall (fun kv => P kv.2) (PyDict.set k v d).
Proof.
  intros Hd Hv. induction Hd as [| [k' v'] d Hx Hd IH]; cbn.
  - by repeat constructor.
  - destruct (decide (k = k')); constructor; auto.
Qed.

End DictOrder.

Section Nesting.
Import Quant.

Lemma nest_empty_wf n : nest_wf n (nest_empty n).
Proof. destruct n; cbn; [exact I | split; constructor]. Qed.

Lemma nest_at_empty n keys :
  (n = 0 -> keys ≠ []) -> nest_at n keys (nest_empty n) = None.
Proof.
  destruct n, keys; cbn; try done. intros H. by destruct H.
Qed.

Lemma nest_at_empty_default n keys :
  default [] (nest_at n keys (nest_empty n)) = [].
Proof. by destruct n, keys. Qed.

Lemma nest_at_add n p v (t : nest n) q :
  length p = n ->
  nest_at n q (nest_add n p v t)
  = if decide (q = p) then Some (default [] (nest_at n q t) ++ [v])
    else nest_at n q t.
Proof.
  revert p q t. induction n as [| m IH]; intros p q t Hlen.
  - destruct p; [| discriminate]. by destruct q.
  - destruct p as [| k p']; [discriminate |]. injection Hlen as Hlen.
    destruct q as [| k' q']; [reflexivity |].
    cbn [nest_add nest_at]. rewrite dict_get_set.
    destruct (decide (k' = k)) as [-> | Hne].
    + cbn [mbind option_bind]. rewrite (IH _ _ _ Hlen).
      destruct (decide (q' = p')) as [-> | Hq].
      * rewrite decide_True by reflexivity. f_equal. f_equal.
        destruct (PyDict.get k t) as [c |]; [reflexivity |].
        apply nest_at_empty_default.
      * rewrite decide_False by congruence.
        destruct (PyDict.get k t) as [c |]; [reflexivity |].
        cbn. apply nest_at_empty. intros ->. by destruct p', q'.
    + rewrite decide_False by congruence. reflexivity.
Qed.

Lemma nest_add_wf n p v (t : nest n) : nest_wf n t -> nest_wf n (nest_add n p v t).
Proof.
  revert p t. induction n as [| m IH]; intros p t; [done |].
  intros [Hdup Hall]. destruct p as [| k p']; [by split |].
  cbn [nest_add]. split; [by apply dict_set_NoDup |].
  apply (dict_set_Forall (nest_wf m)); [exact Hall |]. apply IH.
  destruct (PyDict.get k t) as [c |] eqn:Hg; cbn; [| apply nest_empty_wf].
  apply dict_get_elem in Hg. rewrite Forall_forall in Hall.
  by apply (Hall (k, c)).
Qed.

Lemma nested_of_snoc rs r :
  nested_of (rs ++ [r]) = nest_add 8 (path_vals r) (value_val r) (nested_of rs).
Proof. unfold nested_of. by rewrite foldl_app. Qed.

Lemma nested_of_wf rs : nest_wf 8 (nested_of rs).
Proof.
  induction rs as [| r rs IH] using rev_ind.
  - apply (nest_empty_wf 8).
  - rewrite nested_of_snoc. by apply nest_add_wf.
Qed.

(** The fold: a path holds the values of the rows with that path, in order. *)
Lemma nest_at_nested rs p :
  nest_at 8 p (nested_of rs)
  = match filter (fun r => path_vals r = p) rs with
    | [] => None
    | l => Some (value_val <$> l)
    end.
Proof.
  induction rs as [| r rs IH] using rev_ind.
  - by destruct p.
  - rewrite nested_of_snoc, nest_at_add, filter_app, IH by reflexivity.
    destruct (decide (p = path_vals r)) as [-> | Hne].
    + rewrite (filter_cons_True _ r) by reflexivity. rewrite filter_nil.
      destruct (filter (fun r0 => path_vals r0 = path_vals r) rs) as [| x l];
        [reflexivity |].
      cbn. by rewrite fmap_app.
    + rewrite (filter_cons_False _ r) by congruence.
      by rewrite filter_nil, app_nil_r.
Qed.

(** The rendering keeps every leaf, index-keyed, under the same path. *)
Lemma leaf_at_sorted n p (t : nest n) :
  nest_wf n t ->
  leaf_at n p (to_sorted_dict n t) = imap (fun i x => (i, x)) <$> nest_at n p t.
Proof.
  revert p t. induction n as [| m IH]; intros p t Hwf.
  - by destruct p.
  - destruct p as [| k p']; [reflexivity |]. destruct Hwf as [Hdup Hall].
    change (nest (S m)) with (list (string * nest m)) in t.
    cbn [leaf_at to_sorted_dict nest_at].
    rewrite (dict_get_perm k
               ((fun kv => (kv.1, to_sorted_dict m kv.2)) <$> t)).
    + rewrite dict_get_fmap. fold (nest m).
      destruct (PyDict.get k t) as [c |] eqn:Hg; [| reflexivity].
      cbn. apply IH. apply dict_get_elem in Hg.
      rewrite Forall_forall in Hall. by apply (Hall (k, c)).
    + by rewrite dict_keys_fmap.
    + symmetry. apply sorted_by_perm.
Qed.




End Nesting.

Section NestingOrder.
Import Quant.








End NestingOrder.

Section NestingTree.
Import Quant.


End NestingTree.

(** The order of the city keys of four rows: the empty city, which becomes
    "(blank)", is listed last although '(' is before every letter. *)
Example nester_sentinel_last :
  let city_row (city : string) : csv_row :=
    {[ "geo loc name (city)" := Some city; "gene symbol 1" := Some "N1" ]} in
  Quant.keys_at 8 ["(blank)"]
    (Quant.main ["geo loc name (city)"]
       (city_row <$> ["zeta"; ""; "apple"; "Ottawa"]))
  = Some ["Ottawa"; "apple"; "zeta"; "(blank)"].
Proof. by vm_compute. Qed.

(** ** The end-to-end example of the specification *)

Example dashboard_two_lakes :
  let rows :=
    [ {[ "environmental site" := Some "Lake A";
         "sample collection start date" := Some "2021-06-01" ]};
      {[ "environmental site" := Some "Lake B [site2]";
         "sample collection start date" := Some "2022-01-15" ]} ] in
  (fun p => (Dashboard.p_growth p, Dashboard.p_breakdown p))
    <$> Dashboard.main 1 ∅ rows
  = Some ([ {| Dashboard.year := 2021; Dashboard.records := 1 |};
            {| Dashboard.year := 2022; Dashboard.records := 2 |} ],
          [("Lake A", 1); ("Lake B", 1)]).
Proof. by vm_compute. Qed.

Example nester_two_targets :
  let row : csv_row :=
    {[ "geo loc name (city)" := Some "Ottawa";
       "sample collection start date" := Some "2021-03-04";
       "gene symbol 1" := Some "N1";
       "diagnostic measurement value 1" := Some "12.5";
       "gene symbol 3" := Some "N2 [alt]";
       "diagnostic measurement value 3" := Some "7" ]} in
  Quant.main ["geo loc name (city)"; "sample collection start date"] [row; row]
  = [("(blank)",
      [("Ottawa",
        [("(blank)",
          [("(blank)",
            [("(blank)",
              [("N1", [("(blank)", [("2021-03-04", [(0, "12.5"); (1, "12.5")])])]);
               ("N2", [("(blank)", [("2021-03-04", [(0, "7"); (1, "7")])])])])])])])])].
Proof. by vm_compute. Qed.

(** * Further properties of the two scripts *)

(** ** Bracket removal in the two scripts *)

Section BracketPasses.

Lemma has_match_skel s : has_match (skel s) = has_match s.
Proof.
  induction s as [| c r IH]; [reflexivity |].
  cbn. destruct (is_open c) eqn:Ho, (is_close c) eqn:Hc; cbn;
    rewrite ?Ho, ?Hc, ?IH, ?has_close_skel; reflexivity.
Qed.

Lemma has_match_strip s : has_match (strip s) = has_match s.
Proof. by rewrite <- has_match_skel, skel_strip, has_match_skel. Qed.

Lemma sub_scan_no_match s : has_match s = false -> sub_scan false s = s.
Proof.
  induction s as [| c r IH]; [reflexivity |].
  cbn. intros [Hc Hr]%orb_false_elim. rewrite Hc. by rewrite IH.
Qed.

(** One pass leaves nothing for a second pass to remove. *)
Lemma sub_scan_has_match s :
  has_match (sub_scan false s) = false
  ∧ (has_close s = true -> has_match (sub_scan true s) = false).
Proof.
  induction s as [| c r [IH1 IH2]]; [split; [reflexivity | discriminate] |].
  split.
  - cbn [sub_scan].
    destruct (is_open c) eqn:Ho, (has_close r) eqn:Hr; cbn [andb].
    + by apply IH2.
    + cbn [has_match]. by rewrite Ho, (sub_scan_no_close _ Hr), Hr, <- (sub_scan_no_close _ Hr).
    + cbn [has_match]. by rewrite Ho.
    + cbn [has_match]. by rewrite Ho.
  - cbn [sub_scan has_close]. destruct (is_close c) eqn:Hc.
    + intros _. exact IH1.
    + cbn [orb]. exact IH2.
Qed.

Lemma lstrip_rstrip s : lstrip (rstrip s) = rstrip (lstrip s).
Proof.
  induction s as [| c r IH]; [reflexivity |].
  destruct (is_space c) eqn:Hc.
  - cbn [lstrip]. rewrite Hc, <- IH. cbn [rstrip].
    destruct (rstrip r) as [| c' r'] eqn:Hr; rewrite ?Hc; [reflexivity |].
    cbn [lstrip]. by rewrite Hc.
  - rewrite (rstrip_head _ _ Hc). cbn [lstrip]. rewrite Hc.
    by rewrite (rstrip_head _ _ Hc).
Qed.

Lemma rstrip_cons_congr c x y : rstrip x = rstrip y ->
  rstrip (String c x) = rstrip (String c y).
Proof. intros H. cbn. by rewrite H. Qed.

(** White space on the left of the text does not change the result. *)
Lemma strip_sub_scan_lstrip s :
  strip (sub_scan false (lstrip s)) = strip (sub_scan false s).
Proof.
  induction s as [| c r IH]; [reflexivity |].
  cbn [lstrip]. destruct (is_space c) eqn:Hc; [| reflexivity].
  cbn [sub_scan]. rewrite (space_not_open _ Hc). cbn [andb].
  rewrite IH. unfold strip. cbn [lstrip]. by rewrite Hc.
Qed.

(** Nor does white space on the right. *)
Lemma rstrip_sub_scan_rstrip o s :
  (o = true -> has_close s = true) ->
  rstrip (sub_scan o (rstrip s)) = rstrip (sub_scan o s).
Proof.
  revert o. induction s as [| c r IH]; intros o Ho; [reflexivity |].
  assert (Hcl : has_close (rstrip r) = has_close r)
    by by rewrite <- has_close_skel, skel_rstrip, has_close_skel.
  cbn [rstrip]. destruct (rstrip r) as [| c' r'] eqn:Hr.
  - cbn in Hcl. symmetry in Hcl.
    destruct (is_space c) eqn:Hc.
    + destruct o.
      * specialize (Ho eq_refl). cbn in Ho.
        rewrite (space_not_close _ Hc), Hcl in Ho. discriminate.
      * cbn [sub_scan]. rewrite (space_not_open _ Hc). cbn [andb].
        rewrite (sub_scan_no_close _ Hcl). cbn [rstrip]. by rewrite Hr, Hc.
    + destruct o.
      * specialize (Ho eq_refl). cbn in Ho. rewrite Hcl, orb_false_r in Ho.
        cbn [sub_scan]. rewrite Ho. cbn [sub_scan].
        by rewrite (sub_scan_no_close _ Hcl), Hr.
      * cbn [sub_scan has_close]. rewrite Hcl, !andb_false_r.
        rewrite (sub_scan_no_close _ Hcl). cbn [sub_scan rstrip].
        by rewrite Hr, Hc.
  - rewrite <- Hr in *. clear Hr c' r'. destruct o.
    + specialize (Ho eq_refl). cbn in Ho. cbn [sub_scan].
      destruct (is_close c) eqn:Hc.
      * by apply IH.
      * cbn in Ho. by apply IH.
    + cbn [sub_scan]. rewrite Hcl.
      destruct (is_open c && has_close r) eqn:Hm.
      * apply IH. intros _. by apply andb_true_iff in Hm as [_ ?].
      * apply rstrip_cons_congr. by apply IH.
Qed.

Lemma strip_brackets_strip s : strip_brackets (strip s) = strip_brackets s.
Proof.
  unfold strip_brackets, re_sub_brackets.
  transitivity (strip (sub_scan false (lstrip s)));
    [| apply strip_sub_scan_lstrip].
  unfold strip.
  rewrite <- (lstrip_rstrip (sub_scan false (rstrip (lstrip s)))),
    <- (lstrip_rstrip (sub_scan false (lstrip s))).
  f_equal. by apply rstrip_sub_scan_rstrip.
Qed.

(** X1: [strip_brackets] of the nester is idempotent, its result is
    stripped, and a '[' is left in it exactly when the text has a '[' with
    no ']' after it. *)
Theorem strip_brackets_idempotent s :
  strip_brackets (strip_brackets s) = strip_brackets s
  ∧ strip (strip_brackets s) = strip_brackets s
  ∧ str_in "[" (strip_brackets s) = unclosed s.
Proof.
  split; [| split].
  - rewrite <- strip_brackets_strip. unfold strip_brackets at 1 2.
    rewrite strip_idem. unfold re_sub_brackets at 1.
    rewrite sub_scan_no_match; [apply strip_idem |].
    rewrite has_match_strip. apply sub_scan_has_match.
  - apply strip_idem.
  - unfold strip_brackets, re_sub_brackets.
    by rewrite str_in_open_strip, (proj1 (sub_scan_open s)).
Qed.

(** X2: wherever [trim_brackets] of the dashboard returns, it returns what
    [strip_brackets] of the nester returns on the same text; the nester's
    function returns on every text. *)
Theorem trim_brackets_is_strip_brackets fuel s r :
  trim_brackets fuel (Some s) = Some r -> r = strip_brackets s.
Proof.
  intros [_ ->]%trim_brackets_Some. apply strip_brackets_strip.
Qed.

Lemma trim_brackets_is_strip_brackets_witness :
  trim_brackets 1 (Some " Lake B [site2] north [x] ") = Some "Lake B  north"
  ∧ "Lake B  north" = strip_brackets " Lake B [site2] north [x] ".
Proof.
  split; [reflexivity |].
  exact (trim_brackets_is_strip_brackets 1 " Lake B [site2] north [x] "
           "Lake B  north" eq_refl).
Defined.

End BracketPasses.

(** ** The coordinate parser: range and hemisphere *)

Section ParserFacts.

Lemma unsigned_decimal_sign negative s v :
  unsigned_decimal negative s = Some v ->
  v ≠ NaN ∧ float_negative v = negative.
Proof.
  unfold unsigned_decimal. destruct (span is_digit s) as [ds rest].
  destruct (nonempty ds); [| discriminate].
  assert (Hf : ∀ n d, float_of_fraction negative n d ≠ NaN
                      ∧ float_negative (float_of_fraction negative n d) = negative).
  { intros n d. unfold float_of_fraction. by destruct (round_binary64 n d). }
  destruct rest as [| c fs].
  - destruct (digits_val 0 ds) as [m |]; [| discriminate].
    intros [= <-]. apply Hf.
  - destruct (Ascii.eqb_spec c ".") as [-> | Hne].
    + destruct (nonempty fs); [| discriminate].
      destruct (digits_val 0 (ds +:+ fs)) as [m |]; [| discriminate].
      intros [= <-]. apply Hf.
    + intros H. exfalso. revert H.
      destruct c as [[] [] [] [] [] [] [] []]; try discriminate.
      by destruct Hne.
Qed.

Lemma float_of_decimal_not_nan s v : float_of_decimal s = Some v -> v ≠ NaN.
Proof.
  unfold float_of_decimal. intros H.
  assert (∃ b r, unsigned_decimal b r = Some v) as (b & r & Hv).
  { destruct s as [| c r]; [by exists false, "" |].
    destruct (Ascii.eqb_spec c "-") as [-> | Hne]; [by exists true, r |].
    exists false, (String c r). revert H.
    destruct c as [[] [] [] [] [] [] [] []]; done. }
  by apply unsigned_decimal_sign in Hv as [? _].
Qed.

Lemma parse_lat_lon_Some raw kind v :
  parse_lat_lon raw kind = Some v ->
  ∃ text g1 g2 value,
    raw = Some text
    ∧ match_lat_lon (strip text) = Some (g1, g2)
    ∧ float_of_decimal g1 = Some value
    ∧ v = signed_by (map_chars upper_char (default "" g2)) value
    ∧ (String.eqb kind "lat" && (float_lt_int v (-90) || float_gt_int v 90) = false)
    ∧ (String.eqb kind "lon" && (float_lt_int v (-180) || float_gt_int v 180) = false).
Proof.
  unfold parse_lat_lon. destruct raw as [text |]; [| discriminate].
  destruct (negb (nonempty (strip text)) || String.eqb (strip text) "--"
            || str_in "not provided" (lower (strip text))); [discriminate |].
  destruct (match_lat_lon (strip text)) as [[g1 g2] |] eqn:Hm; [| discriminate].
  destruct (float_of_decimal g1) as [value |] eqn:Hval; [| discriminate].
  fold (signed_by (map_chars upper_char (default "" g2)) value).
  set (w := signed_by _ value).
  destruct (String.eqb kind "lat" && (float_lt_int w (-90) || float_gt_int w 90))
    eqn:Hlat; [discriminate |].
  destruct (String.eqb kind "lon" && (float_lt_int w (-180) || float_gt_int w 180))
    eqn:Hlon; [discriminate |].
  intros [= <-]. by exists text, g1, g2, value.
Qed.

Lemma signed_by_not_nan hemi value : value ≠ NaN -> signed_by hemi value ≠ NaN.
Proof.
  unfold signed_by. intros Hv.
  destruct (String.eqb hemi "S" || String.eqb hemi "W");
    [by destruct value |].
  destruct (String.eqb hemi "N" || String.eqb hemi "E"); by destruct value.
Qed.

Lemma float_between v (bound : Z) :
  v ≠ NaN ->
  float_lt_int v (- bound) || float_gt_int v bound = false ->
  float_within bound v.
Proof.
  intros Hnan [Hlt Hgt]%orb_false_elim. destruct v as [s m | s |]; [| | done].
  - exists (if s then Qopp m else m). cbn in *.
    apply negb_false_iff in Hlt, Hgt. by rewrite !Qle_bool_iff in Hlt, Hgt.
  - cbn in Hlt, Hgt. destruct s; discriminate.
Qed.

Lemma parse_lat_within raw v :
  parse_lat_lon raw "lat" = Some v -> float_within 90 v.
Proof.
  intros (text & g1 & g2 & value & _ & _ & Hval & Hv & Hlat & _)
    %parse_lat_lon_Some.
  apply float_between; [| exact Hlat].
  rewrite Hv. by apply signed_by_not_nan, (float_of_decimal_not_nan g1).
Qed.

Lemma parse_lon_within raw v :
  parse_lat_lon raw "lon" = Some v -> float_within 180 v.
Proof.
  intros (text & g1 & g2 & value & _ & _ & Hval & Hv & _ & Hlon)
    %parse_lat_lon_Some.
  apply float_between; [| exact Hlon].
  rewrite Hv. by apply signed_by_not_nan, (float_of_decimal_not_nan g1).
Qed.

(** X3: a latitude that [parse_lat_lon] returns is a finite number between
    -90 and 90, a longitude one between -180 and 180; no infinity and no
    NaN comes out for these two axis kinds. *)
Theorem parse_lat_lon_in_range raw kind (bound : Z) v :
  (kind, bound) ∈ [("lat", 90%Z); ("lon", 180%Z)] ->
  parse_lat_lon raw kind = Some v ->
  ∃ q, float_to_Q v = Some q
       ∧ (inject_Z (- bound) <= q)%Q ∧ (q <= inject_Z bound)%Q.
Proof.
  intros Hkind Hv. apply list_elem_of_In in Hkind. cbn in Hkind.
  destruct Hkind as [[= <- <-] | [[= <- <-] | []]].
  - by apply parse_lat_within in Hv.
  - by apply parse_lon_within in Hv.
Qed.

Lemma parse_lat_lon_in_range_witness :
  parse_lat_lon (Some " 123.25 w") "lon" = Some (Finite true (Qred 123.25))
  ∧ ∃ q, float_to_Q (Finite true (Qred 123.25)) = Some q
         ∧ (inject_Z (- 180) <= q)%Q ∧ (q <= inject_Z 180)%Q.
Proof.
  split; [by vm_compute |].
  apply (parse_lat_lon_in_range (Some " 123.25 w") "lon" 180).
  - apply list_elem_of_further, list_elem_of_here.
  - by vm_compute.
Defined.

Lemma match_lat_lon_hemi s g1 h :
  match_lat_lon s = Some (g1, Some h) ->
  ∃ c, h = String c "" ∧ is_hemi c = true.
Proof.
  unfold match_lat_lon.
  destruct (match s with String "-" r => ("-", r) | _ => ("", s) end)
    as [sign s1].
  destruct (span is_digit s1) as [ds s2].
  destruct (nonempty ds); [| discriminate].
  destruct (match s2 with
            | String "." r =>
                let '(fs, r') := span is_digit r in
                if nonempty fs then (sign +:+ ds +:+ "." +:+ fs, r')
                else (sign +:+ ds, s2)
            | _ => (sign +:+ ds, s2)
            end) as [num s3].
  destruct (span is_space s3) as [sp s4].
  destruct s4 as [| c r]; [discriminate |].
  destruct (is_hemi c) eqn:Hc; [| discriminate].
  intros [= _ <-]. by exists c.
Qed.

(** X4: when the text has a hemisphere letter, the letter alone decides the
    sign of the result, whatever sign the number was written with: S and W
    (in either case) give a negative value, N and E a positive one. *)
Theorem parse_lat_lon_hemisphere_sign text kind v g1 h :
  parse_lat_lon (Some text) kind = Some v ->
  match_lat_lon (strip text) = Some (g1, Some h) ->
  float_negative v
  = (String.eqb (map_chars upper_char h) "S"
     || String.eqb (map_chars upper_char h) "W").
Proof.
  intros (text' & g1' & g2 & value & [= <-] & Hm & Hval & -> & _)
    %parse_lat_lon_Some Hm'.
  rewrite Hm' in Hm. injection Hm as <- <-.
  apply match_lat_lon_hemi in Hm' as (c & -> & Hc).
  change (map_chars upper_char (default "" (Some (String c ""))))
    with (String (upper_char c) "").
  change (map_chars upper_char (String c "")) with (String (upper_char c) "").
  unfold is_hemi in Hc. unfold signed_by.
  assert (Hnan := float_of_decimal_not_nan _ _ Hval).
  destruct (Ascii.eqb_spec (upper_char c) "S") as [-> | HS];
    [by destruct value |].
  destruct (Ascii.eqb_spec (upper_char c) "W") as [-> | HW];
    [by destruct value |].
  destruct (Ascii.eqb_spec (upper_char c) "N") as [-> | HN];
    [by destruct value |].
  destruct (Ascii.eqb_spec (upper_char c) "E") as [-> | HE];
    [by destruct value | discriminate Hc].
Qed.

Lemma parse_lat_lon_hemisphere_sign_witness :
  parse_lat_lon (Some "-45.5 N") "lat" = Some (Finite false (Qred 45.5))
  ∧ match_lat_lon (strip "-45.5 N") = Some ("-45.5", Some "N")
  ∧ float_negative (Finite false (Qred 45.5))
    = (String.eqb (map_chars upper_char "N") "S"
       || String.eqb (map_chars upper_char "N") "W").
Proof.
  assert (H1 : parse_lat_lon (Some "-45.5 N") "lat"
               = Some (Finite false (Qred 45.5))) by by vm_compute.
  assert (H2 : match_lat_lon (strip "-45.5 N") = Some ("-45.5", Some "N"))
    by by vm_compute.
  split; [exact H1 | split; [exact H2 |]].
  exact (parse_lat_lon_hemisphere_sign _ _ _ _ _ H1 H2).
Defined.

End ParserFacts.

(** ** The province table: what gets into it *)

Section ProvinceKeys.
Variable py_float : string -> option pyfloat.

Lemma province_step_lookup coords row k c :
  province_step py_float coords row !! k = Some c ->
  coords !! k = Some c
  ∨ (k ∈ province_keys py_float row
     ∧ float_cell py_float row "Latitude" = Some c.1
     ∧ float_cell py_float row "Longitude" = Some c.2).
Proof.
  unfold province_step, province_keys.
  destruct (nonempty (row_text row "Province")); cbn [negb]; [| by left].
  destruct (float_cell py_float row "Latitude") as [lat |]; [| by left].
  destruct (float_cell py_float row "Longitude") as [lon |]; [| by left].
  destruct (nonempty (short_name (row_text row "Province"))
            && negb (String.eqb (short_name (row_text row "Province"))
                       (row_text row "Province"))).
  - rewrite lookup_insert. case_decide as Hs.
    + intros [= <-]. right. subst k. split; [| done].
      apply list_elem_of_further, list_elem_of_here.
    + rewrite lookup_insert. case_decide as Hn; [| by left].
      intros [= <-]. right. subst k. split; [apply list_elem_of_here | done].
  - rewrite lookup_insert. case_decide as Hn; [| by left].
    intros [= <-]. right. subst k. split; [apply list_elem_of_here | done].
Qed.

Lemma province_keys_clean row k :
  k ∈ province_keys py_float row ->
  k ≠ "" ∧ strip k = k
  ∧ (k = row_text row "Province" ∨ k = short_name (row_text row "Province")).
Proof.
  unfold province_keys.
  destruct (nonempty (row_text row "Province")) eqn:Hname;
    [| by intros ?%elem_of_nil].
  destruct (float_cell py_float row "Latitude"); [| by intros ?%elem_of_nil].
  destruct (float_cell py_float row "Longitude"); [| by intros ?%elem_of_nil].
  intros [-> | [<- | []]%list_elem_of_In]%elem_of_cons.
  - split; [by apply nonempty_true | split; [apply strip_idem | by left]].
  - split; [| split; [apply strip_idem | by right]].
    apply nonempty_true. exact (short_name_nonempty _ Hname).
Qed.

(** X5: every key of the loaded province table is a non-empty, stripped
    text, the full or the short name of an entry of the file whose latitude
    and longitude cells give that key's coordinate; when the file does not
    exist the table has no key. *)
Theorem province_table_keys (table : option (list csv_row)) k c :
  load_province_coords py_float table !! k = Some c ->
  k ≠ "" ∧ strip k = k
  ∧ ∃ rows row,
      table = Some rows ∧ row ∈ rows
      ∧ (k = row_text row "Province" ∨ k = short_name (row_text row "Province"))
      ∧ float_cell py_float row "Latitude" = Some c.1
      ∧ float_cell py_float row "Longitude" = Some c.2.
Proof.
  unfold load_province_coords.
  destruct table as [rows |]; [| by rewrite lookup_empty].
  assert (Hfold : ∀ rows, foldl (province_step py_float) ∅ rows !! k = Some c ->
    ∃ row, row ∈ rows ∧ k ∈ province_keys py_float row
           ∧ float_cell py_float row "Latitude" = Some c.1
           ∧ float_cell py_float row "Longitude" = Some c.2).
  { clear rows. intros rows. induction rows as [| row rows IH] using rev_ind.
    - cbn. by rewrite lookup_empty.
    - rewrite foldl_app. cbn. intros [Hk | Hk]%province_step_lookup.
      + destruct (IH Hk) as (row' & Hin & Hrest). exists row'.
        split; [| exact Hrest]. apply elem_of_app. by left.
      + exists row. split; [| exact Hk].
        apply elem_of_app. right. apply list_elem_of_here. }
  intros (row & Hin & Hkey & Hlat & Hlon)%Hfold.
  apply province_keys_clean in Hkey as (Hne & Hstrip & Hname).
  split; [exact Hne | split; [exact Hstrip |]]. by exists rows, row.
Qed.

End ProvinceKeys.

Lemma province_table_keys_witness :
  let table := Some [province_row " Ontario [CA-ON] " "43.65" "-79.38"] in
  load_province_coords float_of_decimal table !! "Ontario"
  = Some (float_of_Q 43.65, float_of_Q (-79.38))
  ∧ "Ontario" ≠ "" ∧ strip "Ontario" = "Ontario".
Proof.
  cbn zeta.
  assert (H : load_province_coords float_of_decimal
                (Some [province_row " Ontario [CA-ON] " "43.65" "-79.38"])
              !! "Ontario" = Some (float_of_Q 43.65, float_of_Q (-79.38)))
    by by vm_compute.
  destruct (province_table_keys float_of_decimal _ _ _ H) as (Hne & Hs & _).
  by split.
Defined.

(** ** The dashboard: what the coverage points are *)

Section Tally.
Context {K : Type} `{EqDecision K}.

Lemma tally_snoc (ks : list K) k : tally (ks ++ [k]) = PyDict.incr k (tally ks).
Proof. unfold tally. by rewrite foldl_app. Qed.

Lemma occurrences_snoc (ks : list K) k k' :
  occurrences k' (ks ++ [k])
  = occurrences k' ks + (if decide (k' = k) then 1 else 0).
Proof.
  unfold occurrences. rewrite filter_app, length_app. f_equal.
  case_decide.
  - by rewrite filter_cons_True.
  - by rewrite filter_cons_False.
Qed.

Lemma occurrences_elem (ks : list K) k : 0 < occurrences k ks ↔ k ∈ ks.
Proof.
  unfold occurrences. induction ks as [| x ks IH].
  - cbn. split; [lia | by intros ?%elem_of_nil].
  - rewrite elem_of_cons. destruct (decide (k = x)) as [-> | Hne].
    + rewrite filter_cons_True by done. cbn. split; [by left | lia].
    + rewrite filter_cons_False by done. rewrite IH. tauto.
Qed.

Lemma tally_NoDup (ks : list K) : NoDup (tally ks).*1.
Proof.
  induction ks as [| k ks IH] using rev_ind; [constructor |].
  rewrite tally_snoc. by apply dict_incr_NoDup.
Qed.

(** A key is in the tally with the number of its occurrences, and a key
    that does not occur is not in it. *)
Lemma tally_get (ks : list K) k :
  PyDict.get k (tally ks)
  = if decide (occurrences k ks = 0) then None else Some (occurrences k ks).
Proof.
  induction ks as [| k0 ks IH] using rev_ind; [reflexivity |].
  rewrite tally_snoc, occurrences_snoc. unfold PyDict.incr.
  rewrite dict_get_set. destruct (decide (k = k0)) as [-> | Hne].
  - rewrite IH.
    destruct (decide (occurrences k0 ks + 1 = 0)) as [H0 | _]; [lia |].
    f_equal. destruct (decide (occurrences k0 ks = 0)) as [-> | _]; cbn; lia.
  - rewrite IH, Nat.add_0_r. reflexivity.
Qed.

Lemma tally_elem (ks : list K) k n :
  (k, n) ∈ tally ks ↔ n = occurrences k ks ∧ 0 < n.
Proof.
  split.
  - intros Hin%dict_elem_get; [| apply tally_NoDup].
    rewrite tally_get in Hin. case_decide; [discriminate |].
    injection Hin as <-. split; [reflexivity | lia].
  - intros [-> Hpos]. apply dict_get_elem. rewrite tally_get.
    by rewrite decide_False by lia.
Qed.

Lemma tally_sum (ks : list K) : sum_list (tally ks).*2 = length ks.
Proof.
  induction ks as [| k ks IH] using rev_ind; [reflexivity |].
  rewrite tally_snoc, dict_incr_sum, IH, length_app. cbn. lia.
Qed.

End Tally.

Section CoverageFacts.
Import Dashboard.
Variable province_coords : gmap string (pyfloat * pyfloat).

Lemma coord_counts_tally rows :
  coord_counts (scan_rows province_coords rows)
  = tally (located province_coords rows).
Proof.
  induction rows as [| row rows IH] using rev_ind; [reflexivity |].
  rewrite scan_rows_snoc, located_snoc, coord_counts_step, IH.
  destruct (resolve_coord province_coords row) as [key |]; cbn.
  - by rewrite tally_snoc.
  - by rewrite app_nil_r.
Qed.

Lemma coverage_of_elem rows p :
  p ∈ coverage_of (scan_rows province_coords rows)
  ↔ ((latitude p, longitude p), count p)
      ∈ tally (located province_coords rows).
Proof.
  unfold coverage_of. rewrite sorted_by_perm, coord_counts_tally.
  rewrite list_elem_of_fmap. split.
  - intros ([[lat lon] n] & -> & Hin). exact Hin.
  - intros Hin. exists ((latitude p, longitude p), count p).
    split; [by destruct p | exact Hin].
Qed.

(** X6: the count of an emitted point is the number of rows that resolve
    to exactly its coordinate, which is at least one; and every coordinate
    some row resolves to has its point. *)
Theorem coverage_point_counts_rows rows :
  let points := coverage_of (scan_rows province_coords rows) in
  (∀ p, p ∈ points ->
     count p = occurrences (latitude p, longitude p)
                 (located province_coords rows)
     ∧ 0 < count p)
  ∧ (∀ c, c ∈ located province_coords rows ->
       ∃ p, p ∈ points ∧ (latitude p, longitude p) = c).
Proof.
  cbn zeta. split.
  - intros p Hp%coverage_of_elem. by apply tally_elem in Hp.
  - intros [lat lon] Hc%occurrences_elem.
    exists {| latitude := lat; longitude := lon;
              count := occurrences (lat, lon) (located province_coords rows) |}.
    split; [| reflexivity]. apply coverage_of_elem, tally_elem. by split.
Qed.

(** X7: the points are emitted in descending order of count. *)
Theorem coverage_points_descending rows i j p q :
  let points := coverage_of (scan_rows province_coords rows) in
  points !! i = Some p -> points !! j = Some q -> i < j ->
  count q <= count p.
Proof.
  cbn zeta. unfold coverage_of. intros Hp Hq Hij.
  pose proof (sorted_by_lookup _ Z.leb Z_leb_total Z_leb_trans _ _ _ _ _
                Hp Hq Hij) as Hle.
  unfold key_leb in Hle. apply Z.leb_le in Hle. lia.
Qed.

Lemma resolve_coord_origin row lat lon :
  resolve_coord province_coords row = Some (lat, lon) ->
  (parse_lat_lon (row_get row "geo loc latitude") "lat" = Some lat
   ∧ parse_lat_lon (row_get row "geo loc longitude") "lon" = Some lon)
  ∨ (province_coords
       !! row_text row "geo loc name (state/province/territory)"
     = Some (lat, lon)
     ∧ row_text row "geo loc name (state/province/territory)" ≠ "").
Proof.
  rewrite resolve_coord_direct_or_fallback.
  destruct (parse_lat_lon (row_get row "geo loc latitude") "lat") as [la |],
    (parse_lat_lon (row_get row "geo loc longitude") "lon") as [lo |];
    cbn zeta;
    try (destruct (nonempty
                     (row_text row "geo loc name (state/province/territory)"))
           eqn:Hne; [| discriminate];
         intros H; right; split; [exact H | by apply nonempty_true]).
  intros [= <- <-]. by left.
Qed.

(** X8: the coordinate of an emitted point was either parsed from the two
    axes of a row, and then its latitude is within 90 and its longitude
    within 180 of zero, or it is the coordinate the province table holds
    for the non-empty province name of a row. With an empty table (the
    reference file missing) every point is within range. *)
Theorem coverage_points_origin rows p :
  p ∈ coverage_of (scan_rows province_coords rows) ->
  (float_within 90 (latitude p) ∧ float_within 180 (longitude p))
  ∨ (∃ row, row ∈ rows
       ∧ row_text row "geo loc name (state/province/territory)" ≠ ""
       ∧ province_coords
           !! row_text row "geo loc name (state/province/territory)"
         = Some (latitude p, longitude p)).
Proof.
  intros [Heq Hpos]%coverage_of_elem%tally_elem.
  rewrite Heq in Hpos. apply occurrences_elem in Hpos. unfold located in Hpos.
  apply list_elem_of_omap in Hpos as (row & Hrow & Hres).
  apply resolve_coord_origin in Hres as [[Hlat Hlon] | [Htab Hne]].
  - left. split; [by eapply parse_lat_within | by eapply parse_lon_within].
  - right. by exists row.
Qed.

End CoverageFacts.

Lemma coverage_points_descending_witness :
  let rows : list csv_row :=
    [ {[ "geo loc latitude" := Some "45.5 N"; "geo loc longitude" := Some "75.5 W" ]};
      {[ "geo loc latitude" := Some "10"; "geo loc longitude" := Some "20" ]};
      {[ "geo loc latitude" := Some "10.0"; "geo loc longitude" := Some "20.00" ]} ] in
  Dashboard.count <$> Dashboard.coverage_of (Dashboard.scan_rows ∅ rows) = [2; 1]
  ∧ 1 <= 2.
Proof.
  cbn zeta. split; [by vm_compute |].
  refine (coverage_points_descending ∅
    [ {[ "geo loc latitude" := Some "45.5 N"; "geo loc longitude" := Some "75.5 W" ]};
      {[ "geo loc latitude" := Some "10"; "geo loc longitude" := Some "20" ]};
      {[ "geo loc latitude" := Some "10.0"; "geo loc longitude" := Some "20.00" ]} ]
    0 1
    {| Dashboard.latitude := float_of_Q 10; Dashboard.longitude := float_of_Q 20;
       Dashboard.count := 2 |}
    {| Dashboard.latitude := float_of_Q 45.5;
       Dashboard.longitude := float_of_Q (-75.5); Dashboard.count := 1 |}
    _ _ _); [by vm_compute | by vm_compute | lia].
Defined.

Lemma coverage_points_origin_witness :
  let rows : list csv_row :=
    [ {[ "geo loc latitude" := Some "45.5 N"; "geo loc longitude" := Some "75.5 W" ]} ] in
  let p := {| Dashboard.latitude := float_of_Q 45.5;
              Dashboard.longitude := float_of_Q (-75.5); Dashboard.count := 1 |} in
  p ∈ Dashboard.coverage_of (Dashboard.scan_rows ∅ rows)
  ∧ float_within 90 (Dashboard.latitude p)
  ∧ float_within 180 (Dashboard.longitude p).
Proof.
  cbn zeta.
  assert (Hin : {| Dashboard.latitude := float_of_Q 45.5;
                   Dashboard.longitude := float_of_Q (-75.5);
                   Dashboard.count := 1 |}
                ∈ Dashboard.coverage_of
                    (Dashboard.scan_rows ∅
                       [ {[ "geo loc latitude" := Some "45.5 N";
                            "geo loc longitude" := Some "75.5 W" ]} ])).
  { replace (Dashboard.coverage_of
               (Dashboard.scan_rows ∅
                  [ {[ "geo loc latitude" := Some "45.5 N";
                       "geo loc longitude" := Some "75.5 W" ]} ]))
      with [ {| Dashboard.latitude := float_of_Q 45.5;
                Dashboard.longitude := float_of_Q (-75.5);
                Dashboard.count := 1 |} ] by by vm_compute.
    apply list_elem_of_here. }
  split; [exact Hin |].
  destruct (coverage_points_origin ∅ _ _ Hin) as [Hr | (row & _ & _ & Hk)];
    [exact Hr | by rewrite lookup_empty in Hk].
Defined.

(** ** The dashboard: what the breakdown holds *)

Section BreakdownFacts.
Import Dashboard.

Lemma trim_brackets_result fuel (s : option string) r :
  trim_brackets fuel s = Some r -> str_in "[" r = false ∧ strip r = r.
Proof.
  destruct s as [v |]; [| by intros [= <-]].
  intros [Hu ->]%trim_brackets_Some. split; [| apply strip_idem].
  rewrite str_in_open_strip. unfold re_sub_brackets.
  by rewrite (proj1 (sub_scan_open _)), unclosed_strip.
Qed.

Lemma site_label_clean fuel row l :
  site_label fuel row = Some l -> l ≠ "" ∧ str_in "[" l = false.
Proof.
  unfold site_label.
  destruct (trim_brackets fuel (row_get row "environmental site")) as [r |]
    eqn:Hr; [| discriminate].
  apply trim_brackets_result in Hr as [Hopen _]. intros [= <-].
  unfold or_else. destruct (nonempty r) eqn:Hne; [| done].
  split; [by apply nonempty_true | exact Hopen].
Qed.

(** The loop of [count_by] tallies the labels of the rows. *)
Lemma count_by_tally label rows d :
  count_by label rows = Some d ->
  ∃ ls, Forall2 (fun row l => label row = Some l) rows ls ∧ d = tally ls.
Proof.
  revert d. induction rows as [| row rows IH] using rev_ind; intros d.
  - intros [= <-]. exists []. by split.
  - rewrite count_by_snoc.
    destruct (count_by label rows) as [d0 |]; [| discriminate]. cbn.
    destruct (label row) as [l |] eqn:Hl; [| discriminate]. cbn.
    intros [= <-]. destruct (IH d0 eq_refl) as (ls & Hls & ->).
    exists (ls ++ [l]). split; [| by rewrite tally_snoc].
    apply Forall2_app; [exact Hls | by repeat constructor].
Qed.

Lemma count_by_ext f g rows :
  (∀ row, row ∈ rows -> f row = g row) -> count_by f rows = count_by g rows.
Proof.
  induction rows as [| row rows IH] using rev_ind; intros Hfg; [reflexivity |].
  rewrite !count_by_snoc, IH, Hfg; [reflexivity | |].
  - apply elem_of_app. right. apply list_elem_of_here.
  - intros r Hr. apply Hfg, elem_of_app. by left.
Qed.

Lemma Forall2_occurrences {A} (f : A -> option string) rows ls l :
  Forall2 (fun row l => f row = Some l) rows ls ->
  occurrences l ls = length (filter (fun row => f row = Some l) rows).
Proof.
  unfold occurrences. induction 1 as [| row l' rows ls Hl _ IH]; [reflexivity |].
  destruct (decide (l = l')) as [-> | Hne].
  - rewrite !filter_cons_True by done. cbn. by rewrite IH.
  - rewrite !filter_cons_False by congruence. exact IH.
Qed.

Lemma Forall2_label_elem {A} (f : A -> option string) rows ls l :
  Forall2 (fun row l => f row = Some l) rows ls ->
  l ∈ ls ↔ ∃ row, row ∈ rows ∧ f row = Some l.
Proof.
  induction 1 as [| row l' rows ls Hl _ IH].
  - split; [by intros ?%elem_of_nil | by intros (? & ?%elem_of_nil & _)].
  - rewrite elem_of_cons, IH. split.
    + intros [-> | (r & Hr & Hf)].
      * exists row. split; [apply list_elem_of_here | exact Hl].
      * exists r. split; [by apply list_elem_of_further | exact Hf].
    + intros (r & [-> | Hr]%elem_of_cons & Hf).
      * left. congruence.
      * right. by exists r.
Qed.

(** The parts [breakdown_of] is made of. *)
Lemma breakdown_of_Some fuel rows b :
  breakdown_of fuel rows = Some b ->
  ∃ sc cc, count_by (site_label fuel) rows = Some sc
           ∧ count_by (category fuel (top_sites_of sc)) rows = Some cc
           ∧ b = sorted_by breakdown_key (pair_leb Z.leb) cc.
Proof.
  unfold breakdown_of.
  destruct (count_by (site_label fuel) rows) as [sc |]; [| discriminate]. cbn.
  destruct (count_by (category fuel (top_sites_of sc)) rows) as [cc |] eqn:Hcc;
    [| discriminate].
  cbn. intros [= <-]. by exists sc, cc.
Qed.

Lemma category_Some fuel top row l :
  category fuel top row = Some l ->
  (l = "Other" ∨ l ∈ top) ∧ l ≠ "" ∧ str_in "[" l = false.
Proof.
  unfold category.
  destruct (site_label fuel row) as [site |] eqn:Hs; [| discriminate].
  apply site_label_clean in Hs as [Hne Hopen]. cbn. intros [= <-].
  case_bool_decide; [by split; [right |] | by split; [left |]].
Qed.

Lemma top_sites_length sc : length (top_sites_of sc) <= 8.
Proof. unfold top_sites_of. rewrite length_fmap, length_take. lia. Qed.

(** X9: the breakdown has at most nine entries, with pairwise different
    labels; every entry has a count of at least one and a label that is not
    empty and has no '[' in it. *)
Theorem breakdown_entries fuel rows b :
  breakdown_of fuel rows = Some b ->
  length b <= 9 ∧ NoDup b.*1
  ∧ (∀ l n, (l, n) ∈ b -> 0 < n ∧ l ≠ "" ∧ str_in "[" l = false).
Proof.
  intros (sc & cc & Hsc & Hcc & ->)%breakdown_of_Some.
  apply count_by_tally in Hcc as (cats & Hcats & ->).
  assert (Hcat : ∀ l n, (l, n) ∈ tally cats ->
    0 < n ∧ (l = "Other" ∨ l ∈ top_sites_of sc) ∧ l ≠ "" ∧ str_in "[" l = false).
  { intros l n [Heq Hpos]%tally_elem. split; [exact Hpos |].
    rewrite Heq in Hpos. apply occurrences_elem in Hpos.
    apply (Forall2_label_elem _ _ _ _ Hcats) in Hpos as (row & _ & Hrow).
    by apply category_Some in Hrow. }
  split; [| split].
  - rewrite sorted_by_perm, <- (length_fmap fst).
    transitivity (length ("Other" :: top_sites_of sc)).
    + apply submseteq_length, NoDup_submseteq; [apply tally_NoDup |].
      intros l ([l' n] & -> & Hin)%list_elem_of_fmap. cbn.
      apply Hcat in Hin as (_ & [-> | Htop] & _).
      * apply list_elem_of_here.
      * by apply list_elem_of_further.
    + cbn. pose proof (top_sites_length sc). lia.
  - rewrite sorted_by_perm. apply tally_NoDup.
  - intros l n Hin. rewrite sorted_by_perm in Hin.
    apply Hcat in Hin as (Hpos & _ & Hne & Hopen). done.
Qed.

Lemma breakdown_entries_witness :
  let rows := site_row <$> ["a"; "b [x]"; "c"; "d"; "e"; "f"; "g"; "h";
                            "i"; "j"; ""; "k [y] [z]"] in
  let b := [("a", 1); ("b", 1); ("c", 1); ("d", 1); ("e", 1); ("f", 1); ("g", 1);
            ("h", 1); ("Other", 4)] in
  Dashboard.breakdown_of 1 rows = Some b ∧ length b <= 9 ∧ NoDup b.*1.
Proof.
  cbn zeta.
  assert (Hb : Dashboard.breakdown_of 1
    (site_row <$> ["a"; "b [x]"; "c"; "d"; "e"; "f"; "g"; "h";
                   "i"; "j"; ""; "k [y] [z]"])
    = Some [("a", 1); ("b", 1); ("c", 1); ("d", 1); ("e", 1); ("f", 1);
            ("g", 1); ("h", 1); ("Other", 4)]) by (vm_compute; reflexivity).
  destruct (breakdown_entries _ _ _ Hb) as (Hlen & Hdup & _).
  split; [exact Hb | split; [exact Hlen | exact Hdup]].
Defined.

(** X10: within the entries whose label is "other" up to case, and within
    the entries whose label is not, the counts never increase along the
    list. *)
Theorem breakdown_descending fuel rows b i j x y :
  breakdown_of fuel rows = Some b ->
  b !! i = Some x -> b !! j = Some y -> i < j ->
  is_other x.1 = is_other y.1 -> y.2 <= x.2.
Proof.
  intros (sc & cc & _ & _ & ->)%breakdown_of_Some Hx Hy Hij Hsame.
  pose proof (sorted_by_lookup breakdown_key (pair_leb Z.leb)
    (pair_leb_total _ Z_leb_total) (pair_leb_trans _ Z_leb_trans)
    cc i j x y Hx Hy Hij) as Hle.
  unfold key_leb, breakdown_key, pair_leb in Hle. cbn in Hle.
  rewrite Hsame, Bool.eqb_reflx in Hle. apply Z.leb_le in Hle. lia.
Qed.

Lemma breakdown_descending_witness :
  Dashboard.breakdown_of 1 (site_row <$> ["a"; "b"; "b"; "Other"; "other"; "other"])
  = Some [("b", 2); ("a", 1); ("other", 2); ("Other", 1)]
  ∧ 1 <= 2.
Proof.
  assert (Hb : Dashboard.breakdown_of 1
    (site_row <$> ["a"; "b"; "b"; "Other"; "other"; "other"])
    = Some [("b", 2); ("a", 1); ("other", 2); ("Other", 1)])
    by (vm_compute; reflexivity).
  split; [exact Hb |].
  exact (breakdown_descending 1 _ _ 0 1 ("b", 2) ("a", 1) Hb
           eq_refl eq_refl ltac:(lia) eq_refl).
Defined.

(** X11: an entry of the breakdown whose label is not "Other" is one of the
    top sites and carries the number of rows with that site label. *)
Theorem breakdown_site_counts fuel rows b l n :
  breakdown_of fuel rows = Some b ->
  (l, n) ∈ b -> l ≠ "Other" ->
  n = length (filter (fun row => site_label fuel row = Some l) rows)
  ∧ ∃ sc, count_by (site_label fuel) rows = Some sc ∧ l ∈ top_sites_of sc.
Proof.
  intros (sc & cc & Hsc & Hcc & ->)%breakdown_of_Some Hin Hl.
  rewrite sorted_by_perm in Hin.
  apply count_by_tally in Hcc as (cats & Hcats & ->).
  apply tally_elem in Hin as [-> Hpos].
  rewrite (Forall2_occurrences _ _ _ _ Hcats).
  assert (Hiff : ∀ row, category fuel (top_sites_of sc) row = Some l
                 ↔ site_label fuel row = Some l ∧ l ∈ top_sites_of sc).
  { intros row. unfold category.
    destruct (site_label fuel row) as [site |]; cbn;
      [| split; [discriminate | by intros [? _]]].
    case_bool_decide as Htop; split.
    - intros [= <-]. done.
    - by intros [? _].
    - intros [= <-]. done.
    - intros [[= <-] ?]. done. }
  rewrite (Forall2_occurrences _ _ _ _ Hcats) in Hpos.
  split.
  - f_equal. apply list_filter_iff. intros row. rewrite Hiff. split; [tauto |].
    intros Hs. split; [exact Hs |].
    destruct (filter (fun row => category fuel (top_sites_of sc) row = Some l) rows)
      as [| r0 rest] eqn:Hf; [cbn in Hpos; lia |].
    assert (Hr0 : r0 ∈ filter (fun row => category fuel (top_sites_of sc) row = Some l)
                          rows) by (rewrite Hf; apply list_elem_of_here).
    apply list_elem_of_filter in Hr0 as [Hc _]. by apply Hiff in Hc as [_ ?].
  - exists sc. split; [exact Hsc |].
    destruct (filter (fun row => category fuel (top_sites_of sc) row = Some l) rows)
      as [| r0 rest] eqn:Hf; [cbn in Hpos; lia |].
    assert (Hr0 : r0 ∈ filter (fun row => category fuel (top_sites_of sc) row = Some l)
                          rows) by (rewrite Hf; apply list_elem_of_here).
    apply list_elem_of_filter in Hr0 as [Hc _]. by apply Hiff in Hc as [_ ?].
Qed.

Lemma breakdown_site_counts_witness :
  let rows := site_row <$> ["a [x]"; "b"; " a "; "a"] in
  Dashboard.breakdown_of 1 rows = Some [("a", 3); ("b", 1)]
  ∧ 3 = length (filter (fun row => Dashboard.site_label 1 row = Some "a") rows).
Proof.
  cbn zeta.
  assert (Hb : Dashboard.breakdown_of 1 (site_row <$> ["a [x]"; "b"; " a "; "a"])
               = Some [("a", 3); ("b", 1)]) by (vm_compute; reflexivity).
  split; [exact Hb |].
  apply (breakdown_site_counts 1 _ _ "a" 3 Hb); [apply list_elem_of_here | done].
Defined.

(** X12: when the rows have at most eight different site labels nothing is
    moved to "Other": the breakdown is the tally of the site labels, sorted. *)
Theorem breakdown_without_bucket fuel rows sc :
  count_by (site_label fuel) rows = Some sc ->
  length sc <= 8 ->
  breakdown_of fuel rows
  = Some (sorted_by breakdown_key (pair_leb Z.leb) sc).
Proof.
  intros Hsc Hlen. unfold breakdown_of. rewrite Hsc. cbn.
  assert (Htop : top_sites_of sc ≡ₚ sc.*1).
  { unfold top_sites_of. rewrite take_ge; [by rewrite sorted_by_perm |].
    by rewrite sorted_by_perm. }
  rewrite (count_by_ext _ (site_label fuel)), Hsc; [reflexivity |].
  intros row Hrow. unfold category.
  destruct (site_label fuel row) as [site |] eqn:Hsite; [| reflexivity]. cbn.
  rewrite bool_decide_eq_true_2; [reflexivity |]. rewrite Htop.
  destruct (count_by_tally _ _ _ Hsc) as (sites & Hsites & ->).
  assert (Hin : site ∈ sites)
    by (apply (Forall2_label_elem _ _ _ _ Hsites); by exists row).
  apply occurrences_elem in Hin. apply list_elem_of_fmap.
  exists (site, occurrences site sites). split; [reflexivity |].
  by apply tally_elem.
Qed.

Lemma breakdown_without_bucket_witness :
  Dashboard.count_by (Dashboard.site_label 1) (site_row <$> ["Lake A"; "Lake B [site2]"])
  = Some [("Lake A", 1); ("Lake B", 1)]
  ∧ Dashboard.breakdown_of 1 (site_row <$> ["Lake A"; "Lake B [site2]"])
    = Some [("Lake A", 1); ("Lake B", 1)].
Proof.
  assert (Hsc : Dashboard.count_by (Dashboard.site_label 1)
                  (site_row <$> ["Lake A"; "Lake B [site2]"])
                = Some [("Lake A", 1); ("Lake B", 1)]) by (vm_compute; reflexivity).
  split; [exact Hsc |].
  exact (breakdown_without_bucket 1 _ _ Hsc ltac:(cbn; lia)).
Defined.

(** X13: there are at most eight top sites, all different, and a site that
    is not among them never has more rows than one that is. *)
Theorem top_sites_most_frequent fuel rows sc :
  count_by (site_label fuel) rows = Some sc ->
  length (top_sites_of sc) <= 8 ∧ NoDup (top_sites_of sc)
  ∧ (∀ l n l' n', (l, n) ∈ sc -> (l', n') ∈ sc ->
       l ∈ top_sites_of sc -> l' ∉ top_sites_of sc -> n' <= n).
Proof.
  intros (sites & _ & ->)%count_by_tally.
  set (s := sorted_by by_count_desc Z.leb (tally sites)).
  assert (Hperm : s ≡ₚ tally sites) by apply sorted_by_perm.
  assert (Hdup : NoDup s.*1) by (rewrite Hperm; apply tally_NoDup).
  split; [apply top_sites_length | split].
  - unfold top_sites_of. fold s. rewrite <- (take_drop 8 s), fmap_app in Hdup.
    by apply NoDup_app in Hdup as [? _].
  - intros l n l' n' Hl Hl' Htop Hout. rewrite <- Hperm in Hl, Hl'.
    unfold top_sites_of in Htop, Hout. fold s in Htop, Hout.
    apply list_elem_of_fmap in Htop as ([l0 n0] & -> & Hin). cbn in *.
    apply elem_of_take in Hin as (i & Hi & Hi8).
    assert (n0 = n) as ->.
    { assert (H1 := dict_elem_get _ _ _ Hdup Hl).
      assert (H2 := dict_elem_get _ _ _ Hdup (list_elem_of_lookup_2 _ _ _ Hi)).
      congruence. }
    apply list_elem_of_lookup in Hl' as [j Hj].
    destruct (decide (j < 8)) as [Hj8 | Hj8].
    + destruct Hout. apply list_elem_of_fmap. exists (l', n').
      split; [reflexivity |]. apply elem_of_take. by exists j.
    + pose proof (sorted_by_lookup by_count_desc Z.leb Z_leb_total Z_leb_trans
                    (tally sites) i j (l0, n) (l', n') Hi Hj ltac:(lia)) as Hle.
      unfold key_leb, by_count_desc in Hle. cbn in Hle.
      apply Z.leb_le in Hle. lia.
Qed.

Lemma top_sites_most_frequent_witness :
  let rows := site_row <$> ["a"; "b"; "c"; "d"; "e"; "f"; "g"; "h"; "i"; "i"] in
  let sc := [("a", 1); ("b", 1); ("c", 1); ("d", 1); ("e", 1); ("f", 1);
             ("g", 1); ("h", 1); ("i", 2)] in
  Dashboard.count_by (Dashboard.site_label 1) rows = Some sc
  ∧ Dashboard.top_sites_of sc = ["i"; "a"; "b"; "c"; "d"; "e"; "f"; "g"]
  ∧ length (Dashboard.top_sites_of sc) <= 8.
Proof.
  cbn zeta.
  assert (Hsc : Dashboard.count_by (Dashboard.site_label 1)
    (site_row <$> ["a"; "b"; "c"; "d"; "e"; "f"; "g"; "h"; "i"; "i"])
    = Some [("a", 1); ("b", 1); ("c", 1); ("d", 1); ("e", 1); ("f", 1);
            ("g", 1); ("h", 1); ("i", 2)]) by (vm_compute; reflexivity).
  split; [exact Hsc | split; [reflexivity |]].
  exact (proj1 (top_sites_most_frequent 1 _ _ Hsc)).
Defined.

End BreakdownFacts.

(** ** The dashboard: summary and the values of the growth series *)

Section SummaryFacts.
Import Dashboard.
Variable province_coords : gmap string (pyfloat * pyfloat).

(** X14: the time span of the summary is [None]/[None] exactly when no
    row has a year; otherwise its start and end are the least and the
    greatest year of the rows. *)
Theorem summary_time_span rows :
  let s := summary_of rows (scan_rows province_coords rows) in
  (s_start s = None ↔ dated rows = [])
  ∧ (s_end s = None ↔ dated rows = [])
  ∧ (∀ lo, s_start s = Some lo ->
       lo ∈ dated rows ∧ ∀ y, y ∈ dated rows -> lo <= y)
  ∧ (∀ hi, s_end s = Some hi ->
       hi ∈ dated rows ∧ ∀ y, y ∈ dated rows -> y <= hi).
Proof.
  cbn zeta. unfold summary_of. cbn.
  destruct (scan_rows_years province_coords rows) as [_ Hspan].
  destruct (min_year (scan_rows province_coords rows)) as [lo |],
    (max_year (scan_rows province_coords rows)) as [hi |];
    try contradiction.
  - destruct Hspan as (Hlo & Hhi & Hall). rewrite Forall_forall in Hall.
    assert (dated rows ≠ []) by (intros E; rewrite E in Hlo; by apply elem_of_nil in Hlo).
    split; [| split; [| split]].
    + split; [discriminate | done].
    + split; [discriminate | done].
    + intros ? [= <-]. split; [exact Hlo |].
      intros y Hy. by apply Hall in Hy as [? _].
    + intros ? [= <-]. split; [exact Hhi |].
      intros y Hy. by apply Hall in Hy as [_ ?].
  - repeat split; done.
Qed.

Lemma sets_step st row :
  site_set (scan_step province_coords st row)
  = add_nonempty (row_text row "geo loc name (site)") (site_set st)
  ∧ org_set (scan_step province_coords st row)
    = add_nonempty (row_text row "sample collected by organisation name")
        (org_set st)
  ∧ organisms_set (scan_step province_coords st row)
    = add_nonempty (row_text row "organism") (organisms_set st).
Proof. unfold scan_step. by destruct (row_year row). Qed.

Lemma add_nonempty_elem s (X : gset string) x :
  x ∈ add_nonempty s X ↔ (x = s ∧ s ≠ "") ∨ x ∈ X.
Proof.
  unfold add_nonempty. destruct (nonempty s) eqn:Hs.
  - apply nonempty_true in Hs. rewrite elem_of_union, elem_of_singleton. tauto.
  - assert (s = "") by (by destruct s). subst. tauto.
Qed.

Lemma add_nonempty_size s (X : gset string) :
  size (add_nonempty s X) <= S (size X).
Proof.
  unfold add_nonempty. destruct (nonempty s); [| lia].
  rewrite size_union_alt, size_singleton.
  assert (size (X ∖ {[s]}) <= size X).
  { apply subseteq_size. by intros y [? _]%elem_of_difference. }
  lia.
Qed.

(** A set of the scan holds the non-empty texts of its column. *)
Lemma scan_rows_set (proj : scan -> gset string) (col : string) rows :
  proj scan_init = ∅ ->
  (∀ st row, proj (scan_step province_coords st row)
             = add_nonempty (row_text row col) (proj st)) ->
  (∀ x, x ∈ proj (scan_rows province_coords rows)
        ↔ x ≠ "" ∧ ∃ row, row ∈ rows ∧ row_text row col = x)
  ∧ size (proj (scan_rows province_coords rows)) <= length rows.
Proof.
  intros Hinit Hstep. induction rows as [| row rows [IH Hsize]] using rev_ind.
  - change (scan_rows province_coords []) with scan_init. rewrite Hinit.
    split; [| by rewrite size_empty].
    intros x. split; [by intros ?%elem_of_empty |].
    intros (_ & r & Hr & _). by apply elem_of_nil in Hr.
  - rewrite scan_rows_snoc, Hstep, length_app. split.
    + intros x. rewrite add_nonempty_elem, IH. split.
      * intros [[-> Hne] | (Hne & r & Hr & Hx)].
        -- split; [exact Hne |]. exists row. split; [| reflexivity].
           apply elem_of_app. right. apply list_elem_of_here.
        -- split; [exact Hne |]. exists r. split; [| exact Hx].
           apply elem_of_app. by left.
      * intros (Hne & r & [Hr | ->%list_elem_of_singleton]%elem_of_app & Hx).
        -- right. split; [exact Hne |]. by exists r.
        -- left. subst x. by split.
    + pose proof (add_nonempty_size (row_text row col)
                    (proj (scan_rows province_coords rows))).
      cbn [length]. lia.
Qed.

(** X15: the three counters of the summary count the different non-empty
    stripped texts of their columns (site, organism, collecting
    organisation); none of them exceeds the number of records. *)
Theorem summary_distinct_counts rows :
  let st := scan_rows province_coords rows in
  let s := summary_of rows st in
  let texts (col : string) (x : string) :=
    x ≠ "" ∧ ∃ row, row ∈ rows ∧ row_text row col = x in
  s_records s = length rows
  ∧ s_sites s = size (site_set st)
  ∧ s_organisms s = size (organisms_set st)
  ∧ s_dataSources s = size (org_set st)
  ∧ (∀ x, x ∈ site_set st ↔ texts "geo loc name (site)" x)
  ∧ (∀ x, x ∈ organisms_set st ↔ texts "organism" x)
  ∧ (∀ x, x ∈ org_set st ↔ texts "sample collected by organisation name" x)
  ∧ s_sites s <= s_records s
  ∧ s_organisms s <= s_records s
  ∧ s_dataSources s <= s_records s.
Proof.
  cbn zeta.
  destruct (scan_rows_set site_set "geo loc name (site)" rows eq_refl
              (fun st row => proj1 (sets_step st row))) as [I1 S1].
  destruct (scan_rows_set org_set "sample collected by organisation name" rows
              eq_refl (fun st row => proj1 (proj2 (sets_step st row))))
    as [I2 S2].
  destruct (scan_rows_set organisms_set "organism" rows eq_refl
              (fun st row => proj2 (proj2 (sets_step st row)))) as [I3 S3].
  unfold summary_of. cbn.
  split; [reflexivity |]. split; [reflexivity |]. split; [reflexivity |].
  split; [reflexivity |]. split; [exact I1 |]. split; [exact I3 |].
  split; [exact I2 |]. split; [exact S1 |]. split; [exact S3 | exact S2].
Qed.

(** What the loop has added up when it emits the point of a year. *)
Lemma growth_loop_records by_year a n c i p :
  growth_loop by_year c (seq a n) !! i = Some p ->
  year p = a + i
  ∧ records p
    = c + sum_list ((fun y => default 0 (by_year !! y)) <$> seq a (S i)).
Proof.
  revert a c i. induction n as [| n IH]; intros a c i; [discriminate |].
  cbn [seq growth_loop]. destruct i as [| i].
  - intros [= <-]. cbn. split; lia.
  - cbn [lookup list_lookup]. intros Hp.
    change (growth_loop by_year (c + default 0 (by_year !! a)) (seq (S a) n)
              !! i = Some p) in Hp.
    apply IH in Hp as [-> ->]. split; [lia |].
    change (seq a (S (S i))) with (a :: seq (S a) (S i)).
    rewrite fmap_cons. cbn [sum_list_with]. unfold id. lia.
Qed.

Lemma occurrences_filter (P : nat -> Prop) `{∀ y, Decision (P y)} ys z :
  P z -> length (filter (eq z) (filter P ys)) = length (filter (eq z) ys).
Proof.
  intros Hz. induction ys as [| y ys IH]; [reflexivity |].
  destruct (decide (z = y)) as [<- | Hne].
  - rewrite (filter_cons_True P) by done. rewrite !filter_cons_True by done.
    cbn. by rewrite IH.
  - rewrite (filter_cons_False (eq z) y) by done.
    destruct (decide (P y)).
    + rewrite (filter_cons_True P) by done.
      by rewrite (filter_cons_False (eq z) y) by done.
    + by rewrite (filter_cons_False P) by done.
Qed.

Lemma filter_iff_elem {A} (P Q : A -> Prop) `{∀ x, Decision (P x)}
    `{∀ x, Decision (Q x)} (l : list A) :
  (∀ x, x ∈ l -> P x ↔ Q x) -> filter P l = filter Q l.
Proof.
  induction l as [| x l IH]; intros HPQ; [reflexivity |].
  assert (Hx : P x ↔ Q x) by apply HPQ, list_elem_of_here.
  assert (Hl : filter P l = filter Q l)
    by (apply IH; intros y Hy; by apply HPQ, list_elem_of_further).
  destruct (decide (P x)) as [HP | HP].
  - rewrite !filter_cons_True by tauto. by rewrite Hl.
  - rewrite !filter_cons_False by tauto. exact Hl.
Qed.

(** X16: the series has one point for every year from the first to the
    last year of the rows, and the value of a point is the number of rows
    whose year is not after the year of the point. *)
Theorem growth_counts_rows_up_to_year rows :
  let st := scan_rows province_coords rows in
  let g := growth_of st in
  year <$> g
  = seq (default 0 (min_year st))
      (default 0 (max_year st) + 1 - default 0 (min_year st))
  ∧ (∀ p, p ∈ g ->
       records p = length (filter (fun y => y <= year p) (dated rows))).
Proof.
  cbn zeta. split; [apply growth_loop_years |].
  intros p [i Hp]%list_elem_of_lookup. unfold growth_of in Hp.
  apply growth_loop_records in Hp as [Hy ->].
  destruct (scan_rows_years province_coords rows) as [Hcount _].
  destruct (scan_rows_range province_coords rows) as [_ Hall].
  cbn zeta in Hall. cbn [Nat.add].
  set (a := default 0 (min_year (scan_rows province_coords rows))) in *.
  erewrite list_fmap_ext; [| intros ? y ?; apply Hcount].
  set (P := fun y => a <= y < a + S i).
  assert (Hsum : sum_list ((fun y => length (filter (eq y) (filter P (dated rows))))
                             <$> seq a (S i))
                 = length (filter P (dated rows))).
  { apply sum_occurrences. apply Forall_forall.
    by intros y [? _]%list_elem_of_filter. }
  erewrite list_fmap_ext in Hsum.
  2: { intros j y Hj. apply occurrences_filter.
       apply lookup_seq in Hj as [-> ?]. unfold P. lia. }
  rewrite Hsum. f_equal. apply filter_iff_elem. intros y Hin.
  rewrite Forall_forall in Hall. apply Hall in Hin. unfold P. lia.
Qed.

End SummaryFacts.

(** ** The dashboard: the sample field rows and when the run returns *)

Section SampleFacts.
Import Dashboard Samples.

Lemma row_get_or_text row c :
  default "" (row_get_or row c "") = default "" (row_get row c)
  ∧ (∀ v, row_get row c = Some v -> row_get_or row c "" = Some v)
  ∧ (∀ v, row_get_or row c "" = Some v -> row_get row c = Some v ∨ v = "").
Proof.
  unfold row_get_or, row_get. destruct (row !! c) as [[v |] |]; cbn.
  - split; [reflexivity |]. split; intros v' H; [exact H | by left].
  - split; [reflexivity |]. split; intros v' H; discriminate.
  - split; [reflexivity |]. split; intros v' H; [discriminate |].
    injection H as <-. by right.
Qed.

(** A field of a sample row is what the nester's [strip_brackets] makes of
    the text of the column. *)
Lemma trim_field fuel row c f :
  trim_brackets fuel (row_get_or row c "") = Some f ->
  f = strip_brackets (default "" (row_get row c)).
Proof.
  destruct (row_get_or_text row c) as (<- & _ & _).
  destruct (row_get_or row c "") as [v |]; cbn.
  - intros [_ ->]%trim_brackets_Some. apply strip_brackets_strip.
  - by intros [= <-].
Qed.

Lemma sample_row_of_Some fuel row s :
  sample_row_of fuel row = Some s ->
  Year s = row_year row
  ∧ Year_Month s
    = (if nonempty (row_text row "sample collection start date")
       then match_year_month (row_text row "sample collection start date")
       else None)
  ∧ Forall2 (fun c f => trim_brackets fuel (row_get_or row c "") = Some f)
      TRIMMED_COLUMNS
      [organism s; purpose_of_sampling s; state_province s;
       environmental_site s; collection_device s; assay_type s].
Proof.
  unfold sample_row_of.
  destruct (trim_brackets fuel (row_get_or row "organism" "")) as [f1 |] eqn:H1;
    [| discriminate]. cbn.
  destruct (trim_brackets fuel (row_get_or row "purpose of sampling" ""))
    as [f2 |] eqn:H2; [| discriminate]. cbn.
  destruct (trim_brackets fuel
              (row_get_or row "geo loc name (state/province/territory)" ""))
    as [f3 |] eqn:H3; [| discriminate]. cbn.
  destruct (trim_brackets fuel (row_get_or row "environmental site" ""))
    as [f4 |] eqn:H4; [| discriminate]. cbn.
  destruct (trim_brackets fuel (row_get_or row "collection device" ""))
    as [f5 |] eqn:H5; [| discriminate]. cbn.
  destruct (trim_brackets fuel (row_get_or row "assay type" ""))
    as [f6 |] eqn:H6; [| discriminate]. cbn.
  intros [= <-]. cbn. split; [reflexivity | split; [reflexivity |]].
  unfold TRIMMED_COLUMNS. by repeat constructor.
Qed.

Lemma sample_row_of_returns fuel row :
  (∀ c, c ∈ TRIMMED_COLUMNS ->
        is_Some (trim_brackets fuel (row_get_or row c ""))) ->
  is_Some (sample_row_of fuel row).
Proof.
  intros Hall. unfold sample_row_of.
  destruct (Hall "organism") as [f1 ->];
    [apply (bool_decide_unpack _); by vm_compute |]. cbn.
  destruct (Hall "purpose of sampling") as [f2 ->];
    [apply (bool_decide_unpack _); by vm_compute |]. cbn.
  destruct (Hall "geo loc name (state/province/territory)") as [f3 ->];
    [apply (bool_decide_unpack _); by vm_compute |]. cbn.
  destruct (Hall "environmental site") as [f4 ->];
    [apply (bool_decide_unpack _); by vm_compute |]. cbn.
  destruct (Hall "collection device") as [f5 ->];
    [apply (bool_decide_unpack _); by vm_compute |]. cbn.
  destruct (Hall "assay type") as [f6 ->];
    [apply (bool_decide_unpack _); by vm_compute |]. cbn.
  by eexists.
Qed.

(** X17: there is one sample row per record, in the order of the records;
    its Year is the year the growth series counts the record under, so the
    years of the sample rows are the years of the dated records. *)
Theorem sample_rows_years fuel rows samples :
  sample_field_spec_rows fuel rows = Some samples ->
  length samples = length rows
  ∧ (∀ i row s, rows !! i = Some row -> samples !! i = Some s ->
       Year s = row_year row)
  ∧ omap Year samples = dated rows.
Proof.
  unfold sample_field_spec_rows. intros H%mapM_Some.
  assert (Hy : Forall2 (fun row s => Year s = row_year row) rows samples).
  { eapply Forall2_impl; [exact H |]. intros row s Hs.
    by apply sample_row_of_Some in Hs as [? _]. }
  split; [symmetry; by eapply Forall2_length | split].
  - intros i row s Hrow Hs. exact (Forall2_lookup_lr _ _ _ _ _ _ Hy Hrow Hs).
  - unfold dated. clear H. induction Hy as [| row s rows samples Hs _ IH];
      [reflexivity |].
    cbn. by rewrite Hs, IH.
Qed.

Lemma sample_rows_years_witness :
  let rows := [date_row "2021-03-04"; date_row "unknown"; date_row " 2022/05 "] in
  ∃ samples,
    sample_field_spec_rows 0 rows = Some samples
    ∧ Year <$> samples = [Some 2021; None; Some 2022]
    ∧ omap Year samples = dated rows.
Proof.
  cbn zeta.
  destruct (sample_field_spec_rows 0
              [date_row "2021-03-04"; date_row "unknown"; date_row " 2022/05 "])
    as [samples |] eqn:Hs; [| by vm_compute in Hs].
  exists samples. split; [reflexivity |]. split.
  - vm_compute in Hs. by injection Hs as <-.
  - exact (proj2 (proj2 (sample_rows_years 0 _ _ Hs))).
Defined.

(** X18: a sample row with a Year-Month also has a Year; the Year-Month is
    the first seven characters of the stripped collection date. *)
Theorem sample_row_year_month fuel row s ym :
  sample_row_of fuel row = Some s ->
  Year_Month s = Some ym ->
  is_Some (Year s)
  ∧ String.length ym = 7
  ∧ String.prefix ym (row_text row "sample collection start date") = true.
Proof.
  intros (Hy & Hym & _)%sample_row_of_Some. rewrite Hy, Hym. unfold row_year.
  destruct (nonempty (row_text row "sample collection start date"));
    [| discriminate].
  destruct (row_text row "sample collection start date")
    as [| a [| b [| c [| d [| h [| e [| f rest]]]]]]]; try discriminate.
  cbn [match_year_month match_year].
  destruct (is_digit a) eqn:Ha, (is_digit b) eqn:Hb, (is_digit c) eqn:Hc,
    (is_digit d) eqn:Hd; try discriminate.
  cbn [andb]. destruct (Ascii.eqb_spec h "-") as [-> | ?]; [| discriminate].
  destruct (is_digit e), (is_digit f); try discriminate.
  intros [= <-]. split; [| split; [reflexivity |]].
  - cbn -[digit_val Z.mul Z.add Z.to_nat]. rewrite Ha, Hb, Hc, Hd.
    eexists. reflexivity.
  - cbv [String.append]. cbn [String.prefix].
    destruct (ascii_dec a a), (ascii_dec b b), (ascii_dec c c),
      (ascii_dec d d), (ascii_dec "-" "-"), (ascii_dec e e), (ascii_dec f f);
      try done. apply prefix_empty.
Qed.

Lemma sample_row_year_month_witness :
  let row := date_row " 2021-03-04T10:00 " in
  ∃ s, sample_row_of 0 row = Some s
       ∧ Year_Month s = Some "2021-03"
       ∧ is_Some (Year s)
       ∧ String.prefix "2021-03" (row_text row "sample collection start date")
         = true.
Proof.
  cbn zeta.
  destruct (sample_row_of 0 (date_row " 2021-03-04T10:00 ")) as [s |] eqn:Hs;
    [| by vm_compute in Hs].
  assert (Hym : Year_Month s = Some "2021-03")
    by (vm_compute in Hs; by injection Hs as <-).
  exists s. split; [reflexivity | split; [exact Hym |]].
  destruct (sample_row_year_month 0 _ _ _ Hs Hym) as (Hy & _ & Hp).
  by split.
Defined.

(** X19: each of the six text fields of a sample row is what
    [strip_brackets] of the nester gives on the text of its column (the
    empty text for a column that is absent or [None]); so it is stripped
    and has no '[' in it. *)
Theorem sample_row_fields fuel row s :
  sample_row_of fuel row = Some s ->
  [organism s; purpose_of_sampling s; state_province s;
   environmental_site s; collection_device s; assay_type s]
  = (fun c => strip_brackets (default "" (row_get row c))) <$> TRIMMED_COLUMNS
  ∧ Forall (fun f => strip f = f ∧ str_in "[" f = false)
      [organism s; purpose_of_sampling s; state_province s;
       environmental_site s; collection_device s; assay_type s].
Proof.
  intros (_ & _ & Hf)%sample_row_of_Some. split.
  - unfold TRIMMED_COLUMNS in *. cbn [fmap list_fmap].
    repeat match goal with
           | H : Forall2 _ (_ :: _) (_ :: _) |- _ =>
               apply Forall2_cons in H as [?%trim_field H]
           end.
    congruence.
  - apply Forall2_Forall_r with (Q := fun f => strip f = f ∧ str_in "[" f = false)
      in Hf; [exact Hf |].
    apply Forall_forall. intros c _ f Hcf.
    apply trim_brackets_result in Hcf as [? ?]. by split.
Qed.

Lemma sample_row_fields_witness :
  let row : csv_row :=
    {[ "organism" := Some " SARS-CoV-2 [NCBITaxon:2697049] ";
       "assay type" := None ]} in
  ∃ s, sample_row_of 1 row = Some s
       ∧ organism s = "SARS-CoV-2" ∧ assay_type s = ""
       ∧ Forall (fun f => strip f = f ∧ str_in "[" f = false)
           [organism s; purpose_of_sampling s; state_province s;
            environmental_site s; collection_device s; assay_type s].
Proof.
  cbn zeta.
  destruct (sample_row_of 1
              {[ "organism" := Some " SARS-CoV-2 [NCBITaxon:2697049] ";
                 "assay type" := None ]}) as [s |] eqn:Hs;
    [| by vm_compute in Hs].
  exists s. split; [reflexivity |].
  split; [vm_compute in Hs; by injection Hs as <- |].
  split; [vm_compute in Hs; by injection Hs as <- |].
  exact (proj2 (sample_row_fields 1 _ _ Hs)).
Defined.

Lemma trim_brackets_is_Some fuel (s : option string) :
  is_Some (trim_brackets fuel s) -> ∀ v, s = Some v -> unclosed v = false.
Proof.
  intros [r Hr] v ->. by apply trim_brackets_Some in Hr as [? _].
Qed.

(** X20: the run of the dashboard script produces its payload exactly when
    no text in the six bracket-trimmed columns has a '[' with no ']' after
    it, and then one iteration of the loop of [trim_brackets] is enough;
    on any other input the script does not return. *)
Theorem dashboard_returns_iff province_coords rows :
  let closed :=
    ∀ row c v, row ∈ rows -> c ∈ TRIMMED_COLUMNS ->
               row_get row c = Some v -> unclosed v = false in
  ((∃ fuel, is_Some (Samples.main fuel province_coords rows)) ↔ closed)
  ∧ (closed -> is_Some (Samples.main 1 province_coords rows))
  ∧ (¬ closed -> ∀ fuel, Samples.main fuel province_coords rows = None).
Proof.
  cbn zeta.
  assert (Hfwd : ∀ fuel, is_Some (Samples.main fuel province_coords rows) ->
    ∀ row c v, row ∈ rows -> c ∈ TRIMMED_COLUMNS ->
               row_get row c = Some v -> unclosed v = false).
  { intros fuel [p Hp] row c v Hrow Hc Hv. unfold Samples.main in Hp.
    destruct (Dashboard.main fuel province_coords rows); [| discriminate].
    cbn in Hp.
    destruct (sample_field_spec_rows fuel rows) as [samples |] eqn:Hs;
      [| discriminate].
    unfold sample_field_spec_rows in Hs. apply mapM_Some in Hs.
    apply list_elem_of_lookup in Hrow as [i Hi].
    destruct (Forall2_lookup_l _ _ _ _ _ Hs Hi) as (s & _ & Hrs).
    apply sample_row_of_Some in Hrs as (_ & _ & Hf).
    apply list_elem_of_lookup in Hc as [j Hj].
    destruct (Forall2_lookup_l _ _ _ _ _ Hf Hj) as (f & _ & Hcf).
    eapply trim_brackets_is_Some; [by eexists |].
    by apply row_get_or_text. }
  assert (Hbwd : (∀ row c v, row ∈ rows -> c ∈ TRIMMED_COLUMNS ->
                     row_get row c = Some v -> unclosed v = false) ->
                 is_Some (Samples.main 1 province_coords rows)).
  { intros Hclosed. unfold Samples.main, Dashboard.main.
    destruct (breakdown_returns 0 rows) as [b ->].
    { apply Forall_forall. intros row Hrow v Hv.
      apply (Hclosed row "environmental site" v Hrow); [| exact Hv].
      apply (bool_decide_unpack _). by vm_compute. }
    cbn.
    destruct (mapM_is_Some_2 (sample_row_of 1) rows) as [samples Hs].
    { apply Forall_forall. intros row Hrow. apply sample_row_of_returns.
      intros c Hc. destruct (row_get_or row c "") as [v |] eqn:Hv;
        [| by eexists].
      rewrite trim_brackets_closed; [by eexists |].
      apply row_get_or_text in Hv as [Hv | ->]; [| reflexivity].
      by eapply Hclosed. }
    unfold sample_field_spec_rows. rewrite Hs. by eexists. }
  split; [split | split].
  - intros [fuel H]. by eapply Hfwd.
  - intros H. exists 1. by apply Hbwd.
  - exact Hbwd.
  - intros Hn fuel.
    destruct (Samples.main fuel province_coords rows) as [p |] eqn:Hp;
      [| reflexivity].
    destruct Hn. eapply Hfwd. by eexists.
Qed.

End SampleFacts.

(** ** The nester: order of the rows, and the tree read off the rows *)

Section StableSort.
Context {A K : Type} `{EqDecision K} (key : A -> K) (leb : K -> K -> bool).
Hypothesis leb_refl : ∀ a, leb a a = true.

Lemma insert_by_stable x l k :
  filter (fun y => key y = k) (insert_by key leb x l)
  = filter (fun y => key y = k) (x :: l).
Proof.
  induction l as [| y l IH]; [reflexivity |].
  cbn [insert_by]. destruct (leb (key x) (key y)) eqn:Hxy; [reflexivity |].
  assert (Hne : key y ≠ key x) by (intros E; rewrite E, leb_refl in Hxy; done).
  destruct (decide (key y = k)) as [Hy | Hy].
  - rewrite (filter_cons_True _ y) by done. rewrite IH.
    rewrite !(filter_cons_False _ x) by congruence.
    by rewrite (filter_cons_True _ y) by done.
  - rewrite (filter_cons_False _ y) by done. rewrite IH.
    destruct (decide (key x = k)) as [Hx | Hx].
    + rewrite !(filter_cons_True _ x) by done.
      by rewrite (filter_cons_False _ y) by done.
    + rewrite !(filter_cons_False _ x) by done.
      by rewrite (filter_cons_False _ y) by done.
Qed.

(** The elements with one key keep their order. *)
Lemma sorted_by_stable l k :
  filter (fun y => key y = k) (sorted_by key leb l)
  = filter (fun y => key y = k) l.
Proof.
  induction l as [| x l IH]; [reflexivity |].
  cbn [sorted_by foldr]. rewrite insert_by_stable.
  fold (sorted_by key leb l).
  destruct (decide (key x = k)).
  - rewrite !(filter_cons_True _ x) by done. by rewrite IH.
  - rewrite !(filter_cons_False _ x) by done. exact IH.
Qed.

End StableSort.

Lemma string_leb_refl (a : string) : String.leb a a = true.
Proof. apply Is_true_true. change (String.le a a). reflexivity. Qed.

Section NesterFacts.
Import Quant.

Lemma sort_key_date r r' :
  sort_key r = sort_key r' ↔ out_text r DATE_COL = out_text r' DATE_COL.
Proof.
  unfold sort_key. split; [by intros [= _ ?] | by intros ->].
Qed.

(** X21: after the sort every row with a collection date comes before
    every row without one, the dates are in ascending order of their text,
    and rows with the same date text keep the order of the expansion. *)
Theorem out_rows_sorted_by_date (fieldnames : list string)
    (rows : list csv_row) :
  let survivors :=
    List.filter has_target_info (expand (meta_ok_of fieldnames) rows) in
  let sorted := out_rows fieldnames rows in
  (∀ i j r r', sorted !! i = Some r -> sorted !! j = Some r' -> i < j ->
     (out_text r DATE_COL = "" -> out_text r' DATE_COL = "")
     ∧ (out_text r' DATE_COL ≠ "" ->
        String.leb (out_text r DATE_COL) (out_text r' DATE_COL) = true))
  ∧ (∀ d, filter (fun r => out_text r DATE_COL = d) sorted
          = filter (fun r => out_text r DATE_COL = d) survivors).
Proof.
  cbn zeta. split.
  - intros i j r r' Hr Hr' Hij. unfold out_rows in Hr, Hr'.
    pose proof (sorted_by_lookup sort_key (pair_leb String.leb)
      (pair_leb_total _ String.leb_total) (pair_leb_trans _ string_leb_trans)
      _ i j r r' Hr Hr' Hij) as Hle.
    unfold key_leb, sort_key, pair_leb in Hle. cbn in Hle.
    destruct (out_text r DATE_COL) as [| c d] eqn:Hd,
      (out_text r' DATE_COL) as [| c' d'] eqn:Hd'; cbn in Hle; try done.
  - intros d. unfold out_rows.
    set (l := List.filter has_target_info (expand (meta_ok_of fieldnames) rows)).
    destruct (decide (Exists (fun r0 => out_text r0 DATE_COL = d) l))
      as [(r0 & _ & <-)%Exists_exists | Hnone].
    + erewrite (list_filter_iff _ (fun r => sort_key r = sort_key r0)
                  (sorted_by _ _ l)); [| intros r; symmetry; apply sort_key_date].
      erewrite (list_filter_iff _ (fun r => sort_key r = sort_key r0) l);
        [| intros r; symmetry; apply sort_key_date].
      apply sorted_by_stable. intros [b s]. unfold pair_leb. cbn.
      rewrite Bool.eqb_reflx. apply string_leb_refl.
    + assert (Hempty : ∀ l', (∀ r, r ∈ l' -> r ∈ l) ->
        filter (fun r => out_text r DATE_COL = d) l' = []).
      { intros l' Hsub. induction l' as [| r l' IH]; [reflexivity |].
        rewrite filter_cons_False.
        - apply IH. intros r' Hr'. by apply Hsub, list_elem_of_further.
        - intros Hd. apply Hnone, Exists_exists. exists r. split; [| exact Hd].
          apply Hsub, list_elem_of_here. }
      rewrite (Hempty l) by done. apply Hempty.
      intros r Hr. by rewrite sorted_by_perm in Hr.
Qed.

Lemma or_else_nonempty s sentinel :
  sentinel ≠ "" -> strip s = s -> strip sentinel = sentinel ->
  or_else s sentinel ≠ "" ∧ strip (or_else s sentinel) = or_else s sentinel.
Proof.
  intros Hs Hstrip Hsent. unfold or_else.
  destruct (nonempty s) eqn:Hne; [| done].
  split; [by apply nonempty_true | exact Hstrip].
Qed.

Lemma path_vals_clean r :
  length (path_vals r) = 8
  ∧ Forall (fun k => k ≠ "" ∧ strip k = k) (path_vals r)
  ∧ value_val r ≠ "".
Proof.
  split; [reflexivity | split].
  - unfold path_vals. apply Forall_fmap, Forall_forall. intros f _. cbn.
    destruct (String.eqb f DATE_COL);
      apply or_else_nonempty; try done; apply strip_idem.
  - unfold value_val.
    by apply (or_else_nonempty (strip_brackets _) "(blank)");
      [| apply strip_idem |].
Qed.

(** X22: the leaf at a path of the rendered tree lists, with the indices
    0, 1, 2, ..., the measurement values of the sorted rows with that path,
    in their order; such a path has eight keys, none of them empty, and no
    value of the leaf is empty. *)
Theorem leaf_values_in_row_order (fieldnames : list string)
    (rows : list csv_row) p leaf :
  leaf_at 8 p (main fieldnames rows) = Some leaf ->
  leaf = imap (fun i v => (i, v))
           (value_val <$> filter (fun r => path_vals r = p)
                            (out_rows fieldnames rows))
  ∧ length p = 8
  ∧ Forall (fun k => k ≠ "" ∧ strip k = k) p
  ∧ Forall (fun iv => iv.2 ≠ "") leaf.
Proof.
  unfold main. rewrite leaf_at_sorted by apply nested_of_wf.
  rewrite nest_at_nested.
  destruct (filter (fun r => path_vals r = p) (out_rows fieldnames rows))
    as [| r0 l] eqn:Hf; [discriminate |].
  intros Hleaf.
  assert (leaf = imap (fun i v => (i, v)) (value_val <$> r0 :: l)) as ->
    by (symmetry; by injection Hleaf).
  assert (Hr0 : path_vals r0 = p).
  { assert (Hin : r0 ∈ filter (fun r => path_vals r = p)
                         (out_rows fieldnames rows))
      by (rewrite Hf; apply list_elem_of_here).
    by apply list_elem_of_filter in Hin as [? _]. }
  destruct (path_vals_clean r0) as (Hlen & Hkeys & _). rewrite Hr0 in Hlen, Hkeys.
  split; [reflexivity | split; [exact Hlen | split; [exact Hkeys |]]].
  apply Forall_forall. intros [i v] Hin. cbn.
  apply list_elem_of_lookup in Hin as [j Hj].
  rewrite list_lookup_imap, list_lookup_fmap in Hj.
  destruct ((r0 :: l) !! j) as [r |]; [| discriminate].
  cbn in Hj. injection Hj as _ <-. apply path_vals_clean.
Qed.

Lemma dict_set_measure {V} (f : V -> nat) (k : string) (v : V)
    (d : pydict string V) :
  sum_list (f <$> (PyDict.set k v d).*2) + from_option f 0 (PyDict.get k d)
  = sum_list (f <$> d.*2) + f v.
Proof.
  induction d as [| [k' v'] d IH]; cbn; [unfold id; lia |].
  destruct (decide (k = k')) as [-> | Hne]; cbn.
  - generalize (sum_list (f <$> d.*2)) (f v) (f v'). unfold id.
    clear. intros; lia.
  - revert IH.
    generalize (sum_list (f <$> (PyDict.set k v d).*2)) (sum_list (f <$> d.*2))
      (from_option f 0 (PyDict.get k d)) (f v) (f v').
    unfold id. intros n n0 n1 n2 n3 IH. clear -IH. lia.
Qed.

Lemma nest_size_empty n : nest_size n (nest_empty n) = 0.
Proof. by destruct n. Qed.

Lemma nest_size_add n p v (t : nest n) :
  length p = n -> nest_size n (nest_add n p v t) = S (nest_size n t).
Proof.
  revert p t. induction n as [| m IH]; intros p t Hlen.
  - cbn. rewrite length_app. cbn. lia.
  - destruct p as [| k p']; [discriminate |]. injection Hlen as Hlen.
    change (nest (S m)) with (list (string * nest m)) in t.
    cbn [nest_add nest_size].
    pose proof (dict_set_measure (nest_size m) k
      (nest_add m p' v (default (nest_empty m) (PyDict.get k t))) t) as Hm.
    rewrite (IH _ _ Hlen) in Hm. fold (nest m).
    destruct (PyDict.get k t) as [c |]; cbn in Hm |- *;
      rewrite ?nest_size_empty in Hm; lia.
Qed.

Lemma rendered_size_sorted n (t : nest n) :
  rendered_size n (to_sorted_dict n t) = nest_size n t.
Proof.
  revert t. induction n as [| m IH]; intros t.
  - cbn. apply length_imap.
  - change (nest (S m)) with (list (string * nest m)) in t.
    cbn [to_sorted_dict rendered_size nest_size].
    rewrite sorted_by_perm, <- !list_fmap_compose.
    f_equal. apply list_fmap_ext. intros _ [k c] _. cbn. apply IH.
Qed.

Lemma nested_of_size rs : nest_size 8 (nested_of rs) = length rs.
Proof.
  induction rs as [| r rs IH] using rev_ind; [reflexivity |].
  rewrite nested_of_snoc, nest_size_add, IH, length_app by reflexivity.
  cbn. lia.
Qed.

(** X23: the rendered tree holds exactly as many values as there are rows
    after the filter (the number the script prints), and these are at most
    three per record. *)
Theorem tree_holds_every_row (fieldnames : list string) (rows : list csv_row) :
  rendered_size 8 (main fieldnames rows) = length (out_rows fieldnames rows)
  ∧ length (out_rows fieldnames rows) <= 3 * length rows.
Proof.
  split.
  - unfold main. by rewrite rendered_size_sorted, nested_of_size.
  - unfold out_rows. rewrite sorted_by_perm.
    transitivity (length (expand (meta_ok_of fieldnames) rows)).
    + clear. induction (expand (meta_ok_of fieldnames) rows) as [| r l IH];
        [done |].
      cbn [List.filter]. destruct (has_target_info r); cbn [length]; lia.
    + unfold expand. clear. induction rows as [| row rows IH]; [done |].
      cbn [mbind list_bind]. rewrite length_app.
      change (3 + length (rows ≫= expand_row (meta_ok_of fieldnames))
              <= 3 * S (length rows)).
      lia.
Qed.

Lemma meta_ok_elem fieldnames col :
  col ∈ meta_ok_of fieldnames ↔ col ∈ METADATA_COLUMNS ∧ col ∈ fieldnames.
Proof. unfold meta_ok_of. rewrite list_elem_of_filter. tauto. Qed.

Lemma out_text_source fieldnames row n col :
  col ≠ "target" ->
  out_text (expand_target (meta_ok_of fieldnames) row n) col
  = source_text fieldnames row n col.
Proof.
  intros Hcol. unfold out_text, expand_target, source_text.
  rewrite (lookup_foldl_insert
             (fun base => row_text row (base +:+ " " +:+ str_of_nat n))).
  destruct (decide (col ∈ TARGET_BASE_NAMES)); [cbn; apply strip_idem |].
  rewrite lookup_insert_ne by done.
  rewrite (lookup_foldl_insert (fun c => row_text row c)).
  destruct (decide (col ∈ meta_ok_of fieldnames)) as [Hin | Hout].
  - rewrite decide_True by by apply meta_ok_elem. cbn. apply strip_idem.
  - rewrite decide_False by by rewrite <- meta_ok_elem.
    by rewrite lookup_empty.
Qed.

(** X24: the path and the value of the sub-record of slot [n] as read off
    the source row: a metadata level takes the row's column when the
    header has it, a target level takes the slot's own column
    ["<name> <n>"], each with its brackets removed, and an empty text (also
    a metadata column that is not in the header) gives the sentinel. *)
Theorem path_of_source_row (fieldnames : list string) (row : csv_row) (n : nat) :
  let r := expand_target (meta_ok_of fieldnames) row n in
  path_vals r
  = (fun col =>
       or_else (strip_brackets (source_text fieldnames row n col))
         (if String.eqb col DATE_COL then "(no date)" else "(blank)"))
      <$> NEST_ORDER
  ∧ value_val r
    = or_else (strip_brackets (source_text fieldnames row n VALUE_COL)) "(blank)"
  ∧ (∀ col, col ∈ METADATA_COLUMNS -> col ∉ fieldnames ->
       source_text fieldnames row n col = "").
Proof.
  cbn zeta. split; [| split].
  - unfold path_vals. apply list_fmap_ext. intros _ col Hcol%list_elem_of_lookup_2.
    cbv beta zeta.
    rewrite out_text_source; [by destruct (String.eqb col DATE_COL) |].
    intros ->. revert Hcol. apply (bool_decide_unpack _). by vm_compute.
  - unfold value_val. by rewrite out_text_source.
  - intros col Hmeta Hout. unfold source_text.
    rewrite decide_False.
    + rewrite decide_False; [reflexivity | tauto].
    + revert Hmeta. unfold METADATA_COLUMNS, TARGET_BASE_NAMES.
      rewrite !elem_of_cons, !elem_of_nil.
      intros [-> | [-> | [-> | [-> | [-> | [-> | []]]]]]];
        intros H; repeat (destruct H as [H | H]; [discriminate H |]); done.
Qed.

End NesterFacts.

Lemma leaf_values_in_row_order_witness :
  let row : csv_row :=
    {[ "geo loc name (city)" := Some "Ottawa";
       "sample collection start date" := Some "2021-03-04";
       "gene symbol 1" := Some "N1";
       "diagnostic measurement value 1" := Some "12.5";
       "gene symbol 3" := Some "N2 [alt]";
       "diagnostic measurement value 3" := Some "7" ]} in
  let fieldnames := ["geo loc name (city)"; "sample collection start date"] in
  let p := ["(blank)"; "Ottawa"; "(blank)"; "(blank)"; "(blank)"; "N2";
            "(blank)"; "2021-03-04"] in
  Quant.leaf_at 8 p (Quant.main fieldnames [row; row]) = Some [(0, "7"); (1, "7")]
  ∧ length p = 8
  ∧ Forall (fun iv : nat * string => iv.2 ≠ "") [(0, "7"); (1, "7")].
Proof.
  cbn zeta.
  assert (H : Quant.leaf_at 8
    ["(blank)"; "Ottawa"; "(blank)"; "(blank)"; "(blank)"; "N2"; "(blank)";
     "2021-03-04"]
    (Quant.main ["geo loc name (city)"; "sample collection start date"]
       [ {[ "geo loc name (city)" := Some "Ottawa";
            "sample collection start date" := Some "2021-03-04";
            "gene symbol 1" := Some "N1";
            "diagnostic measurement value 1" := Some "12.5";
            "gene symbol 3" := Some "N2 [alt]";
            "diagnostic measurement value 3" := Some "7" ]};
         {[ "geo loc name (city)" := Some "Ottawa";
            "sample collection start date" := Some "2021-03-04";
            "gene symbol 1" := Some "N1";
            "diagnostic measurement value 1" := Some "12.5";
            "gene symbol 3" := Some "N2 [alt]";
            "diagnostic measurement value 3" := Some "7" ]} ])
    = Some [(0, "7"); (1, "7")]) by by vm_compute.
  destruct (leaf_values_in_row_order _ _ _ _ H) as (_ & Hlen & _ & Hval).
  split; [exact H | split; [exact Hlen | exact Hval]].
Defined.
